(** * CIFF image parser: a shallow embedding of [src/ciff.py]

    The Python class [CIFF] is a record with ten fields; the static method
    [CIFF.parse_ciff_file] is a single pass over a byte stream that updates a
    fresh [CIFF] object, raises on the first violated constraint and converts
    every exception into the pair [(is_valid, error_message)].

    The embedding keeps that shape: a state-and-exception monad over the
    interpreter state (the rest of the open file, the local counter
    [bytes_read] and the object [new_ciff]), with [while] loops bounded by
    fuel so that non-termination stays observable.

    Platform assumption: [struct.unpack("Q", _)] uses the native byte order;
    it is modelled as little-endian. *)

From Stdlib Require Import ZArith NArith List String Ascii Bool Lia.
From Stdlib Require Import DecimalString HexadecimalString.
From Stdlib.Strings Require Import Byte.
Import ListNotations.

Local Open Scope string_scope.
Local Open Scope list_scope.
Local Open Scope Z_scope.

(** ** The [CIFF] object (src/ciff.py, lines 4-182) *)

Definition pixel : Type := (Z * Z * Z)%type.

Record CIFF : Type := mkCIFF {
  magic : string;
  header_size : Z;
  content_size : Z;
  width : Z;
  height : Z;
  caption : string;
  tags : list string;
  pixels : list pixel;
  is_valid : bool;
  error_message : string
}.

(** [CIFF()] with every argument left at its default (lines 9-47). *)
Definition CIFF_init : CIFF :=
  mkCIFF "CIFF" 0 0 0 0 "" [] [] true "".

(** ** Interpreter state and outcomes *)

Record state : Type := mkState {
  ciff_file : list byte;   (* what is left to read of the open file *)
  bytes_read : Z;          (* the local variable [bytes_read] *)
  new_ciff : CIFF          (* the object under construction *)
}.

Inductive res (A : Type) : Type :=
| Normal (a : A)           (* the block ran to its end *)
| Raised (msg : string)    (* an [Exception] with [str(e) = msg] is in flight *)
| OutOfFuel.               (* a loop did not finish within the fuel given *)

Arguments Normal {A} a.
Arguments Raised {A} msg.
Arguments OutOfFuel {A}.

Definition M (A : Type) : Type := state -> res A * state.

Definition ret {A} (a : A) : M A := fun s => (Normal a, s).

Definition bind {A B} (m : M A) (k : A -> M B) : M B :=
  fun s =>
    match m s with
    | (Normal a, s') => k a s'
    | (Raised e, s') => (Raised e, s')
    | (OutOfFuel, s') => (OutOfFuel, s')
    end.

Definition raise {A} (msg : string) : M A := fun s => (Raised msg, s).

Definition get : M state := fun s => (Normal s, s).

Notation "x <- m ;; k" := (bind m (fun x => k))
  (at level 61, m at next level, right associativity).
Notation "' pat <- m ;; k" := (bind m (fun x => match x with pat => k end))
  (at level 61, pat pattern, m at next level, right associativity).
Notation "m ;; k" := (bind m (fun _ => k))
  (at level 61, right associativity).

(** [if b: raise Exception(msg)] *)
Definition raise_if (b : bool) (msg : string) : M unit :=
  if b then raise msg else ret tt.

(** [while cond: body], over the loop's local variables [l]. *)
Fixpoint while {L} (fuel : nat) (cond : L -> state -> bool)
    (body : L -> M L) (l : L) : M L :=
  fun s =>
    match fuel with
    | O => (OutOfFuel, s)
    | S fuel' =>
        if cond l s then
          match body l s with
          | (Normal l', s') => while fuel' cond body l' s'
          | (Raised e, s') => (Raised e, s')
          | (OutOfFuel, s') => (OutOfFuel, s')
          end
        else (Normal l, s)
    end.

(** [for x in xs: body], over an immutable list. *)
Fixpoint for_each {X} (xs : list X) (body : X -> M unit) : M unit :=
  match xs with
  | [] => ret tt
  | x :: xs' => body x ;; for_each xs' body
  end.

(** [try: m  except Exception as e: handler(str(e))] *)
Definition try_except (m : M unit) (handler : string -> M unit) : M unit :=
  fun s =>
    match m s with
    | (Raised e, s') => handler e s'
    | other => other
    end.

(** ** File and counter primitives *)

(** [ciff_file.read(n)]: at most [n] bytes, fewer only at the end. *)
Definition read (n : nat) : M (list byte) :=
  fun s => (Normal (firstn n (ciff_file s)),
            mkState (skipn n (ciff_file s)) (bytes_read s) (new_ciff s)).

(** [bytes_read += k] *)
Definition incr_bytes_read (k : Z) : M unit :=
  fun s => (Normal tt, mkState (ciff_file s) (bytes_read s + k) (new_ciff s)).

Definition update_ciff (f : CIFF -> CIFF) : M unit :=
  fun s => (Normal tt, mkState (ciff_file s) (bytes_read s) (f (new_ciff s))).

(** ** Property setters (lines 63-182) *)

Definition with_magic (v : string) (c : CIFF) : CIFF :=
  mkCIFF v (header_size c) (content_size c) (width c) (height c)
         (caption c) (tags c) (pixels c) (is_valid c) (error_message c).
Definition with_header_size (v : Z) (c : CIFF) : CIFF :=
  mkCIFF (magic c) v (content_size c) (width c) (height c)
         (caption c) (tags c) (pixels c) (is_valid c) (error_message c).
Definition with_content_size (v : Z) (c : CIFF) : CIFF :=
  mkCIFF (magic c) (header_size c) v (width c) (height c)
         (caption c) (tags c) (pixels c) (is_valid c) (error_message c).
Definition with_width (v : Z) (c : CIFF) : CIFF :=
  mkCIFF (magic c) (header_size c) (content_size c) v (height c)
         (caption c) (tags c) (pixels c) (is_valid c) (error_message c).
Definition with_height (v : Z) (c : CIFF) : CIFF :=
  mkCIFF (magic c) (header_size c) (content_size c) (width c) v
         (caption c) (tags c) (pixels c) (is_valid c) (error_message c).
Definition with_caption (v : string) (c : CIFF) : CIFF :=
  mkCIFF (magic c) (header_size c) (content_size c) (width c) (height c)
         v (tags c) (pixels c) (is_valid c) (error_message c).
Definition with_tags (v : list string) (c : CIFF) : CIFF :=
  mkCIFF (magic c) (header_size c) (content_size c) (width c) (height c)
         (caption c) v (pixels c) (is_valid c) (error_message c).
Definition with_pixels (v : list pixel) (c : CIFF) : CIFF :=
  mkCIFF (magic c) (header_size c) (content_size c) (width c) (height c)
         (caption c) (tags c) v (is_valid c) (error_message c).
Definition with_is_valid (v : bool) (c : CIFF) : CIFF :=
  mkCIFF (magic c) (header_size c) (content_size c) (width c) (height c)
         (caption c) (tags c) (pixels c) v (error_message c).
Definition with_error_message (v : string) (c : CIFF) : CIFF :=
  mkCIFF (magic c) (header_size c) (content_size c) (width c) (height c)
         (caption c) (tags c) (pixels c) (is_valid c) v.

(** ** Library calls used by the parser *)

Definition is_ascii (b : byte) : bool := (Byte.to_N b <? 128)%N.

(** [str(e)] of the [UnicodeDecodeError] raised by [bytes.decode('ascii')]
    at the first byte [b >= 0x80], found at index [pos]. *)
Definition unicode_decode_error (b : byte) (pos : nat) : string :=
  ("'ascii' codec can't decode byte 0x"
   ++ HexadecimalString.NilEmpty.string_of_uint (N.to_hex_uint (Byte.to_N b))
   ++ " in position "
   ++ DecimalString.NilZero.string_of_uint (Nat.to_uint pos)
   ++ ": ordinal not in range(128)")%string.

Fixpoint decode_from (pos : nat) (bs : list byte) : string + string :=
  match bs with
  | [] => inl ""
  | b :: bs' =>
      if is_ascii b then
        match decode_from (S pos) bs' with
        | inl s => inl (String (ascii_of_byte b) s)
        | inr e => inr e
        end
      else inr (unicode_decode_error b pos)
  end.

(** [bs.decode('ascii')] *)
Definition decode_ascii (bs : list byte) : M string :=
  match decode_from 0 bs with
  | inl s => ret s
  | inr e => raise e
  end.

Definition byte_val (b : byte) : Z := Z.of_N (Byte.to_N b).

Fixpoint le_uint (bs : list byte) : Z :=
  match bs with
  | [] => 0
  | b :: bs' => byte_val b + 256 * le_uint bs'
  end.

(** [struct.unpack("Q", bs)[0]] *)
Definition unpack_Q (bs : list byte) : M Z :=
  if (List.length bs =? 8)%nat then ret (le_uint bs)
  else raise "unpack requires a buffer of 8 bytes".

(** [struct.unpack("BBB", bs)] *)
Definition unpack_BBB (bs : list byte) : M pixel :=
  match bs with
  | [r; g; b] => ret (byte_val r, byte_val g, byte_val b)
  | _ => raise "unpack requires a buffer of 3 bytes"
  end.

Fixpoint last_char (s : string) : option ascii :=
  match s with
  | EmptyString => None
  | String a EmptyString => Some a
  | String _ s' => last_char s'
  end.

(** [s[-1]] on a [str] *)
Definition index_last (s : string) : M string :=
  match last_char s with
  | Some a => ret (String a EmptyString)
  | None => raise "string index out of range"
  end.

Definition LF : string := String "010" EmptyString.   (* '\n' *)
Definition NUL : string := String "000" EmptyString.  (* '\0' *)

(** ** [CIFF.parse_ciff_file] (lines 188-329), block by block *)

(** Lines 203-213: the magic bytes. *)
Definition read_magic : M unit :=
  magic_bytes <- read 4 ;;
  raise_if (negb (List.length magic_bytes =? 4)%nat) "Couldn't read 4 magic bytes" ;;
  incr_bytes_read 4 ;;
  m <- decode_ascii magic_bytes ;;
  update_ciff (with_magic m) ;;
  s <- get ;;
  if negb (magic (new_ciff s) =? "CIFF")%string then
    update_ciff (with_is_valid false) ;;
    raise "Error parsing magic bytes"
  else ret tt.

(** Lines 215-227: the header size. *)
Definition read_header_size : M unit :=
  h_size <- read 8 ;;
  raise_if (negb (List.length h_size =? 8)%nat) "Invalid image format: header size" ;;
  incr_bytes_read 8 ;;
  v <- unpack_Q h_size ;;
  update_ciff (with_header_size v) ;;
  s <- get ;;
  raise_if (header_size (new_ciff s) <? 38) "Invalid image format: header size".

(** Lines 230-238: the content size. *)
Definition read_content_size : M unit :=
  c_size <- read 8 ;;
  raise_if (negb (List.length c_size =? 8)%nat) "Invalid image format: content size" ;;
  incr_bytes_read 8 ;;
  v <- unpack_Q c_size ;;
  update_ciff (with_content_size v).

(** Lines 240-248: the width. *)
Definition read_width : M unit :=
  width_bytes <- read 8 ;;
  raise_if (negb (List.length width_bytes =? 8)%nat) "Invalid image format: width" ;;
  incr_bytes_read 8 ;;
  v <- unpack_Q width_bytes ;;
  update_ciff (with_width v).

(** Lines 251-262: the height, then the content-size identity. *)
Definition read_height : M unit :=
  height_bytes <- read 8 ;;
  raise_if (negb (List.length height_bytes =? 8)%nat) "Invalid image format: height" ;;
  incr_bytes_read 8 ;;
  v <- unpack_Q height_bytes ;;
  update_ciff (with_height v) ;;
  s <- get ;;
  raise_if
    (negb (content_size (new_ciff s)
           =? width (new_ciff s) * height (new_ciff s) * 3))
    "Invalid image format: content size not equal to width*height*3".

(** Lines 264-281: the caption, one character at a time.  The loop's
    locals are the pair [(caption, char)]. *)
Definition caption_cond (l : string * string) (_ : state) : bool :=
  negb (snd l =? LF)%string.

Definition caption_body (l : string * string) : M (string * string) :=
  let caption := (fst l ++ snd l)%string in
  c <- read 1 ;;
  raise_if (negb (List.length c =? 1)%nat) "Invalid image: caption" ;;
  incr_bytes_read 1 ;;
  char <- decode_ascii c ;;
  ret (caption, char).

Definition read_caption (fuel : nat) : M unit :=
  c <- read 1 ;;
  raise_if (negb (List.length c =? 1)%nat) "Invalid image format: caption format" ;;
  incr_bytes_read 1 ;;
  char <- decode_ascii c ;;
  l <- while fuel caption_cond caption_body ("", char) ;;
  update_ciff (with_caption (fst l)).

(** Lines 283-309: the tags.  The loop's locals are the pair
    [(tags, tag)]. *)
Definition tags_cond (_ : list string * string) (s : state) : bool :=
  negb (bytes_read s =? header_size (new_ciff s)).

Definition tags_body (l : list string * string) : M (list string * string) :=
  c <- read 1 ;;
  raise_if (negb (List.length c =? 1)%nat) "Invalid image: tags" ;;
  incr_bytes_read 1 ;;
  char <- decode_ascii c ;;
  raise_if (char =? LF)%string "Invalid image: tags" ;;
  let tag := (snd l ++ char)%string in
  let l' := if (char =? NUL)%string then ((fst l ++ [tag])%list, "") else (fst l, tag) in
  s <- get ;;
  raise_if
    ((bytes_read s =? header_size (new_ciff s)) && negb (char =? NUL)%string)
    "Invalid image: tags" ;;
  ret l'.

Definition check_tag (tag : string) : M unit :=
  last <- index_last tag ;;
  raise_if (negb (last =? NUL)%string) "Invalid image: tags".

Definition read_tags (fuel : nat) : M unit :=
  l <- while fuel tags_cond tags_body ([], "") ;;
  for_each (fst l) check_tag ;;
  update_ciff (with_tags (fst l)).

(** Lines 311-318: the pixels; [new_ciff.pixels] is appended to in place. *)
Definition pixels_cond (_ : unit) (s : state) : bool :=
  bytes_read s <? header_size (new_ciff s) + content_size (new_ciff s).

Definition pixels_body (_ : unit) : M unit :=
  c <- read 3 ;;
  raise_if (negb (List.length c =? 3)%nat) "Invalid image: content" ;;
  incr_bytes_read 3 ;;
  pixel <- unpack_BBB c ;;
  update_ciff (fun o => with_pixels (pixels o ++ [pixel])%list o).

Definition read_pixels (fuel : nat) : M unit :=
  while fuel pixels_cond pixels_body tt.

(** Lines 320-323: nothing may follow the pixels. *)
Definition check_eof : M unit :=
  of_byte <- read 1 ;;
  raise_if (negb (List.length of_byte =? 0)%nat) "Invalid image: content".

(** The body of the [try] (lines 202-323). *)
Definition parse_body (fuel : nat) : M unit :=
  read_magic ;;
  read_header_size ;;
  read_content_size ;;
  read_width ;;
  read_height ;;
  read_caption fuel ;;
  read_tags fuel ;;
  read_pixels fuel ;;
  check_eof.

(** Lines 325-327: the [except] clause. *)
Definition on_exception (e : string) : M unit :=
  update_ciff (with_is_valid false) ;;
  update_ciff (with_error_message e).

(** The state in which the [try] is entered on a file holding [stream]
    (lines 198-202). *)
Definition initial (stream : list byte) : state :=
  mkState stream 0 CIFF_init.

Definition parse_ciff_file (fuel : nat) : M CIFF :=
  try_except (parse_body fuel) on_exception ;;
  s <- get ;;
  ret (new_ciff s).

(** Fuel that is always enough for a given file: every iteration of every
    loop either reads at least one byte or raises. *)
Definition fuel_for (stream : list byte) : nat := S (List.length stream).

(** What the caller gets back for a file holding [stream]. *)
Definition decode (stream : list byte) : res CIFF :=
  fst (parse_ciff_file (fuel_for stream) (initial stream)).

(** ** Building test files *)

Fixpoint encode_le (n : nat) (v : N) : list byte :=
  match n with
  | O => []
  | S n' =>
      match Byte.of_N (v mod 256) with
      | Some b => b :: encode_le n' (v / 256)
      | None => []
      end
  end.

Definition ciff_bytes (hs cs w h : N) (rest : list byte) : list byte :=
  [x43; x49; x46; x46] ++ encode_le 8 hs ++ encode_le 8 cs
  ++ encode_le 8 w ++ encode_le 8 h ++ rest.

(** Header size 39, content size 3, width 1, height 1, an empty caption,
    the tag 'x', null, and one pixel. *)
Definition sample_file : list byte :=
  ciff_bytes 39 3 1 1 [x0a; x78; x00; x0a; x14; x1e].

(** The object expected back for [sample_file]. *)
Definition sample_ciff : CIFF :=
  mkCIFF "CIFF" 39 3 1 1 "" [String "x" (String "000" "")]
         [(10, 20, 30)] true "".

(** A file whose caption is 'a', null; followed by the tag 'x', null. *)
Definition null_caption_file : list byte :=
  ciff_bytes 41 0 0 0 [x61; x00; x0a; x78; x00].

(** The object that comes back for [null_caption_file]. *)
Definition null_caption_ciff : CIFF :=
  mkCIFF "CIFF" 41 0 0 0 (String "a" (String "000" ""))
         [String "x" (String "000" "")] [] true "".

(** A 38-byte file: the fixed fields, the caption 'a' and its newline,
    no tag, no pixel. *)
Definition newline_ended_file : list byte :=
  ciff_bytes 38 0 0 0 [x61; x0a].

(** A file that declares a 38-byte header but whose caption is three
    characters long: the counter is at 40 when the tag loop is entered. *)
Definition long_caption_file : list byte :=
  ciff_bytes 38 0 0 0 [x61; x62; x63; x0a; x78; x00].

(** ** Predicates used in the statements *)

Fixpoint count_char (a : ascii) (s : string) : nat :=
  match s with
  | EmptyString => O
  | String b s' => ((if Ascii.eqb a b then 1 else 0) + count_char a s')%nat
  end.

(** A stored tag: not empty, one null character, and that one last. *)
Definition tag_ok (t : string) : Prop :=
  t <> "" /\ count_char "000" t = 1%nat /\ last_char t = Some "000"%char.

(** The four characters that four ASCII bytes decode to. *)
Definition four_chars (b0 b1 b2 b3 : byte) : string :=
  String (ascii_of_byte b0) (String (ascii_of_byte b1)
    (String (ascii_of_byte b2) (String (ascii_of_byte b3) EmptyString))).

(** The eight bytes of the stream that start at offset [off], as a number. *)
Definition field_at (off : nat) (stream : list byte) : Z :=
  le_uint (firstn 8 (skipn off stream)).

(** ** Reasoning about blocks *)

(** What a run of a block established, by kind of outcome. *)
Definition outcome {A} (r : res A * state)
    (QN : A -> state -> Prop) (QR : string -> state -> Prop) (QF : Prop) : Prop :=
  match r with
  | (Normal a, s') => QN a s'
  | (Raised e, s') => QR e s'
  | (OutOfFuel, _) => QF
  end.

(** Between [s] and [s'] exactly the bytes [bs] were read and counted. *)
Definition reads (s s' : state) (bs : list byte) : Prop :=
  ciff_file s = bs ++ ciff_file s'
  /\ bytes_read s' = bytes_read s + Z.of_nat (List.length bs).

Definition nonempty (e : string) (_ : state) : Prop := e <> "".

(** ** Invariants and summaries used in the proofs *)

Definition caption_inv (s0 : state) (l : string * string) (s : state) : Prop :=
  exists bs, reads s0 s bs /\ new_ciff s = new_ciff s0
    /\ count_char "010" (fst l) = 0%nat
    /\ exists a, snd l = String a EmptyString.

Definition tags_inv (s0 : state) (l : list string * string) (s : state) : Prop :=
  exists bs, reads s0 s bs /\ new_ciff s = new_ciff s0
    /\ Forall tag_ok (fst l) /\ count_char "000" (snd l) = 0%nat.

(** [k] is the number of pixels still owed when the loop is entered. *)
Definition pixels_inv (s0 : state) (k : Z) (_ : unit) (s : state) : Prop :=
  exists bs pxs, reads s0 s bs
    /\ new_ciff s = with_pixels (pixels (new_ciff s0) ++ pxs) (new_ciff s0)
    /\ Z.of_nat (List.length bs) = 3 * Z.of_nat (List.length pxs)
    /\ Z.of_nat (List.length pxs) <= k.

(** What is known of the final state when the body ran to its end on a
    file holding [stream]. *)
Record accepted (stream : list byte) (s' : state) : Prop := {
  acc_file : ciff_file s' = [];
  acc_count : bytes_read s' = Z.of_nat (List.length stream);
  acc_total :
    Z.of_nat (List.length stream)
    = header_size (new_ciff s') + content_size (new_ciff s');
  acc_valid : is_valid (new_ciff s') = true;
  acc_message : error_message (new_ciff s') = "";
  acc_magic : magic (new_ciff s') = "CIFF";
  acc_header_size : header_size (new_ciff s') = field_at 4 stream;
  acc_content_size : content_size (new_ciff s') = field_at 12 stream;
  acc_width : width (new_ciff s') = field_at 20 stream;
  acc_height : height (new_ciff s') = field_at 28 stream;
  acc_min : 38 <= header_size (new_ciff s');
  acc_identity :
    content_size (new_ciff s')
    = width (new_ciff s') * height (new_ciff s') * 3;
  acc_pixels :
    Z.of_nat (List.length (pixels (new_ciff s')))
    = width (new_ciff s') * height (new_ciff s');
  acc_caption : count_char "010" (caption (new_ciff s')) = 0%nat;
  acc_tags : Forall tag_ok (tags (new_ciff s'))
}.

(** The object handed back when the body raised [e] in state [s']. *)
Definition rejected (e : string) (s' : state) : CIFF :=
  with_error_message e (with_is_valid false (new_ciff s')).

(** A block whose result no longer depends on the fuel once it is enough. *)
Definition fuel_stable {A} (m : nat -> M A) : Prop :=
  forall (fuel fuel' : nat) (s : state),
    (fuel <= fuel')%nat -> fst (m fuel s) <> OutOfFuel -> m fuel' s = m fuel s.

(** ** The layout of a file, for the statements about accepted files *)

(** The pixels spelled by a run of content bytes, three bytes each. *)
Fixpoint pixels_of (bs : list byte) : list pixel :=
  match bs with
  | r :: g :: b :: rest => (byte_val r, byte_val g, byte_val b) :: pixels_of rest
  | _ => []
  end.

(** The tags written one after the other. *)
Definition join (ts : list string) : string := fold_right append "" ts.

(** A run of bytes that is either empty or ends with a null byte. *)
Definition null_ended (bs : list byte) : Prop :=
  bs = [] \/ exists pre, bs = pre ++ [x00].

Definition caption_layout (s0 : state) (l : string * string) (s : state)
    : Prop :=
  exists capb b, reads s0 s (capb ++ [b]) /\ new_ciff s = new_ciff s0
    /\ fst l = string_of_list_byte capb
    /\ snd l = String (ascii_of_byte b) EmptyString
    /\ forallb is_ascii (capb ++ [b]) = true
    /\ ~ In x0a capb.

Definition tags_layout (s0 : state) (l : list string * string) (s : state)
    : Prop :=
  exists tagb, reads s0 s tagb /\ new_ciff s = new_ciff s0
    /\ (join (fst l) ++ snd l)%string = string_of_list_byte tagb
    /\ forallb is_ascii tagb = true
    /\ ~ In x0a tagb
    /\ (null_ended tagb -> snd l = "")
    /\ (bytes_read s = header_size (new_ciff s) -> null_ended tagb).

Definition pixels_layout (s0 : state) (_ : unit) (s : state) : Prop :=
  exists bs k, reads s0 s bs
    /\ new_ciff s
       = with_pixels (pixels (new_ciff s0) ++ pixels_of bs) (new_ciff s0)
    /\ List.length bs = (3 * k)%nat.

(** How an accepted file is laid out, and what each part became in the
    object [c]. *)
Definition layout (stream : list byte) (c : CIFF) : Prop :=
  exists hsb csb wb hb capb tagb pxb,
    stream = [x43; x49; x46; x46] ++ hsb ++ csb ++ wb ++ hb
             ++ capb ++ [x0a] ++ tagb ++ pxb
    /\ List.length hsb = 8%nat /\ List.length csb = 8%nat
    /\ List.length wb = 8%nat /\ List.length hb = 8%nat
    /\ header_size c = le_uint hsb /\ content_size c = le_uint csb
    /\ width c = le_uint wb /\ height c = le_uint hb
    /\ header_size c
       = Z.of_nat (36 + List.length capb + 1 + List.length tagb)
    /\ content_size c = Z.of_nat (List.length pxb)
    /\ caption c = string_of_list_byte capb
    /\ forallb is_ascii capb = true /\ ~ In x0a capb
    /\ join (tags c) = string_of_list_byte tagb
    /\ forallb is_ascii tagb = true /\ ~ In x0a tagb
    /\ null_ended tagb
    /\ pixels c = pixels_of pxb.

Definition anything (_ : string) (_ : state) : Prop := True.

(** A pixel whose three channels are byte values. *)
Definition channel_ok (p : pixel) : Prop :=
  let '(r, g, b) := p in
  0 <= r <= 255 /\ 0 <= g <= 255 /\ 0 <= b <= 255.

(** The largest value of an unsigned 64-bit field. *)
Definition max_uint64 : Z := 18446744073709551615.

(** ** Writing an object back as a file

    The source has no writer; [ciff_encode] spells an object in the
    layout that [parse_ciff_file] reads, so that the two can be compared. *)

Definition byte_of_channel (v : Z) : byte :=
  match Byte.of_N (Z.to_N v) with
  | Some b => b
  | None => x00
  end.

Definition pixel_bytes (p : pixel) : list byte :=
  let '(r, g, b) := p in
  [byte_of_channel r; byte_of_channel g; byte_of_channel b].

Definition ciff_encode (c : CIFF) : list byte :=
  list_byte_of_string (magic c)
  ++ encode_le 8 (Z.to_N (header_size c))
  ++ encode_le 8 (Z.to_N (content_size c))
  ++ encode_le 8 (Z.to_N (width c))
  ++ encode_le 8 (Z.to_N (height c))
  ++ list_byte_of_string (caption c) ++ [x0a]
  ++ list_byte_of_string (join (tags c))
  ++ flat_map pixel_bytes (pixels c).

(** A string of characters below 128. *)
Definition ascii_text (s : string) : Prop :=
  forallb is_ascii (list_byte_of_string s) = true.

(** The objects that [parse_ciff_file] can hand back as valid. *)
Record well_formed (c : CIFF) : Prop := {
  wf_magic : magic c = "CIFF";
  wf_valid : is_valid c = true;
  wf_message : error_message c = "";
  wf_header :
    header_size c
    = Z.of_nat (37 + String.length (caption c)
                + String.length (join (tags c)));
  wf_min : 38 <= header_size c <= max_uint64;
  wf_width : 0 <= width c <= max_uint64;
  wf_height : 0 <= height c <= max_uint64;
  wf_content : content_size c = width c * height c * 3;
  wf_content_fits : content_size c <= max_uint64;
  wf_count : Z.of_nat (List.length (pixels c)) = width c * height c;
  wf_channels : Forall channel_ok (pixels c);
  wf_caption : ascii_text (caption c);
  wf_caption_line : count_char "010" (caption c) = 0%nat;
  wf_tags :
    Forall (fun t => tag_ok t /\ ascii_text t
                     /\ count_char "010" t = 0%nat)
           (tags c)
}.

(** What the tag loop makes of the characters [u], from the tags [done]
    and the buffer [acc]. *)
Fixpoint scan_tags (done : list string) (acc : string) (u : string)
    : list string * string :=
  match u with
  | EmptyString => (done, acc)
  | String a u' =>
      if (String a EmptyString =? NUL)%string
      then scan_tags (done ++ [(acc ++ String a EmptyString)%string]) "" u'
      else scan_tags done (acc ++ String a EmptyString)%string u'
  end.

(** The messages of the exceptions that [parse_ciff_file] raises itself
    (lines 207-323). *)
Definition parse_messages : list string :=
  [ "Couldn't read 4 magic bytes";
    "Error parsing magic bytes";
    "Invalid image format: header size";
    "Invalid image format: content size";
    "Invalid image format: width";
    "Invalid image format: height";
    "Invalid image format: content size not equal to width*height*3";
    "Invalid image format: caption format";
    "Invalid image: caption";
    "Invalid image: tags";
    "Invalid image: content" ].

(** A message of the parser, or the decoder's message for a byte of 0x80
    or more. *)
Definition known_message (e : string) (_ : state) : Prop :=
  In e parse_messages
  \/ exists b pos, is_ascii b = false /\ e = unicode_decode_error b pos.

(** ** Lists, strings and decoding *)

Lemma firstn_full_split {X} (n : nat) (l : list X) :
  List.length (firstn n l) = n -> l = firstn n l ++ skipn n l.
Proof. intros _. symmetry. apply firstn_skipn. Qed.

Lemma skipn_exact {X} (a b : list X) (n : nat) :
  List.length a = n -> skipn n (a ++ b) = b.
Proof.
  intros <-. rewrite skipn_app, skipn_all, Nat.sub_diag. reflexivity.
Qed.

Lemma firstn_exact {X} (a b : list X) (n : nat) :
  List.length a = n -> firstn n (a ++ b) = a.
Proof.
  intros <-. rewrite firstn_app, firstn_all, Nat.sub_diag. simpl.
  apply app_nil_r.
Qed.

Lemma byte_val_nonneg b : 0 <= byte_val b.
Proof. unfold byte_val. apply N2Z.is_nonneg. Qed.

Lemma le_uint_nonneg bs : 0 <= le_uint bs.
Proof.
  induction bs as [|b bs IH]; cbn [le_uint]; [lia|].
  pose proof (byte_val_nonneg b). lia.
Qed.

Lemma unicode_decode_error_nonempty b pos : unicode_decode_error b pos <> "".
Proof. unfold unicode_decode_error. simpl. discriminate. Qed.

Lemma decode_from_error pos bs e : decode_from pos bs = inr e -> e <> "".
Proof.
  revert pos. induction bs as [|b bs IH]; simpl; intros pos H; [discriminate|].
  destruct (is_ascii b).
  - destruct (decode_from (S pos) bs) eqn:E; [discriminate|].
    injection H as <-. eauto.
  - injection H as <-. apply unicode_decode_error_nonempty.
Qed.

(** Decoding one byte gives a one-character string. *)
Lemma decode_from_single pos b s :
  decode_from pos [b] = inl s -> s = String (ascii_of_byte b) EmptyString.
Proof.
  simpl. destruct (is_ascii b); [|discriminate]. now intros [= <-].
Qed.

Lemma one_byte (bs : list byte) :
  List.length bs = 1%nat -> exists b, bs = [b].
Proof. destruct bs as [|b [|? ?]]; try discriminate. eauto. Qed.

Lemma count_char_app a s1 s2 :
  count_char a (s1 ++ s2)%string = (count_char a s1 + count_char a s2)%nat.
Proof. induction s1 as [|b s1 IH]; simpl; [reflexivity|]. rewrite IH. lia. Qed.

Lemma last_char_snoc s a :
  last_char (s ++ String a EmptyString)%string = Some a.
Proof.
  induction s as [|b s IH]; simpl; [reflexivity|].
  rewrite IH. destruct (s ++ String a "")%string eqn:E; [|reflexivity].
  destruct s; discriminate.
Qed.

(** ** The blocks before the loops *)

Ltac mstep :=
  cbv beta iota delta
    [bind read raise_if raise ret incr_bytes_read update_ciff get unpack_Q
     decode_ascii index_last outcome nonempty];
  cbn [ciff_file bytes_read new_ciff fst snd negb].

Ltac reflect_tests :=
  repeat match goal with
  | H : (_ =? _)%nat = true |- _ => apply Nat.eqb_eq in H
  | H : (_ =? _)%string = true |- _ => apply String.eqb_eq in H
  | H : (_ =? _)%string = false |- _ => apply String.eqb_neq in H
  | H : (_ =? _)%Z = true |- _ => apply Z.eqb_eq in H
  | H : (_ =? _)%Z = false |- _ => apply Z.eqb_neq in H
  | H : (_ <? _)%Z = true |- _ => apply Z.ltb_lt in H
  | H : (_ <? _)%Z = false |- _ => apply Z.ltb_ge in H
  end.

Ltac split_on c :=
  destruct c eqn:?; mstep; try discriminate; reflect_tests.

Lemma reads_step (n : nat) s c :
  List.length (firstn n (ciff_file s)) = n ->
  reads s (mkState (skipn n (ciff_file s)) (bytes_read s + Z.of_nat n) c)
        (firstn n (ciff_file s)).
Proof.
  intros H. unfold reads. cbn [ciff_file bytes_read]. rewrite H.
  split; [|reflexivity]. now apply firstn_full_split.
Qed.

Lemma reads_nil s : reads s s [].
Proof. unfold reads. cbn. split; [reflexivity|lia]. Qed.

Lemma reads_trans s1 s2 s3 bs1 bs2 :
  reads s1 s2 bs1 -> reads s2 s3 bs2 -> reads s1 s3 (bs1 ++ bs2).
Proof.
  unfold reads. intros [F1 B1] [F2 B2]. rewrite F1, F2, B2, B1.
  rewrite <- app_assoc, length_app. split; [reflexivity|lia].
Qed.

Lemma reads_length s s' bs :
  reads s s' bs ->
  List.length (ciff_file s)
  = (List.length bs + List.length (ciff_file s'))%nat.
Proof. intros [F _]. rewrite F. apply length_app. Qed.

Lemma read_magic_spec s :
  outcome (read_magic s)
    (fun _ s' => exists bs, List.length bs = 4%nat /\ reads s s' bs
                 /\ new_ciff s' = with_magic "CIFF" (new_ciff s))
    nonempty False.
Proof.
  unfold read_magic. mstep.
  split_on (List.length (firstn 4 (ciff_file s)) =? 4)%nat.
  split_on (decode_from 0 (firstn 4 (ciff_file s))).
  - cbn [magic with_magic].
    split_on (s0 =? "CIFF")%string.
    subst s0. exists (firstn 4 (ciff_file s)). split; [assumption|].
    split; [|reflexivity]. now apply (reads_step 4).
  - eapply decode_from_error; eassumption.
Qed.

Ltac field_block s :=
  mstep;
  split_on (List.length (firstn 8 (ciff_file s)) =? 8)%nat.

Lemma read_header_size_spec s :
  outcome (read_header_size s)
    (fun _ s' => exists bs, List.length bs = 8%nat /\ reads s s' bs
                 /\ new_ciff s' = with_header_size (le_uint bs) (new_ciff s)
                 /\ 38 <= le_uint bs)
    nonempty False.
Proof.
  unfold read_header_size. field_block s.
  cbn [header_size with_header_size].
  split_on (le_uint (firstn 8 (ciff_file s)) <? 38).
  exists (firstn 8 (ciff_file s)). split; [assumption|].
  split; [now apply (reads_step 8)|]. split; [reflexivity|assumption].
Qed.

Lemma read_content_size_spec s :
  outcome (read_content_size s)
    (fun _ s' => exists bs, List.length bs = 8%nat /\ reads s s' bs
                 /\ new_ciff s' = with_content_size (le_uint bs) (new_ciff s))
    nonempty False.
Proof.
  unfold read_content_size. field_block s.
  exists (firstn 8 (ciff_file s)). split; [assumption|].
  split; [now apply (reads_step 8)|reflexivity].
Qed.

Lemma read_width_spec s :
  outcome (read_width s)
    (fun _ s' => exists bs, List.length bs = 8%nat /\ reads s s' bs
                 /\ new_ciff s' = with_width (le_uint bs) (new_ciff s))
    nonempty False.
Proof.
  unfold read_width. field_block s.
  exists (firstn 8 (ciff_file s)). split; [assumption|].
  split; [now apply (reads_step 8)|reflexivity].
Qed.

Lemma read_height_spec s :
  outcome (read_height s)
    (fun _ s' => exists bs, List.length bs = 8%nat /\ reads s s' bs
                 /\ new_ciff s' = with_height (le_uint bs) (new_ciff s)
                 /\ content_size (new_ciff s)
                    = width (new_ciff s) * le_uint bs * 3)
    nonempty False.
Proof.
  unfold read_height. field_block s.
  cbn [content_size width height with_height].
  split_on (content_size (new_ciff s)
            =? width (new_ciff s) * le_uint (firstn 8 (ciff_file s)) * 3).
  exists (firstn 8 (ciff_file s)). split; [assumption|].
  split; [now apply (reads_step 8)|]. split; [reflexivity|assumption].
Qed.

Lemma check_eof_spec s :
  outcome (check_eof s)
    (fun _ s' => ciff_file s = [] /\ ciff_file s' = []
                 /\ bytes_read s' = bytes_read s /\ new_ciff s' = new_ciff s)
    nonempty False.
Proof.
  unfold check_eof. mstep.
  destruct (ciff_file s) as [|b l]; cbn; [auto|discriminate].
Qed.

Lemma check_tag_spec t s :
  outcome (check_tag t s) (fun _ s' => s' = s) nonempty False.
Proof.
  unfold check_tag. mstep.
  split_on (last_char t). split_on (String a "" =? NUL)%string.
  now destruct s.
Qed.

Lemma check_tags_spec ts s :
  outcome (for_each ts check_tag s) (fun _ s' => s' = s) nonempty False.
Proof.
  revert s. induction ts as [|t ts IH]; intros s; cbn [for_each].
  - reflexivity.
  - unfold bind. pose proof (check_tag_spec t s) as Ht.
    destruct (check_tag t s) as [[[]|e|] s1]; cbn in Ht |- *; try assumption.
    subst s1. apply IH.
Qed.

(** ** The loop rule *)

Section WhileRule.
Context {L : Type}.
Variable cond : L -> state -> bool.
Variable body : L -> M L.
(** The invariant, and what may be said of a raised exception. *)
Variable Inv : L -> state -> Prop.
Variable Exc : string -> state -> Prop.

(** Every iteration keeps the invariant and shortens what is left of the
    file, or raises. *)
Hypothesis body_ok :
  forall l s, Inv l s -> cond l s = true ->
    outcome (body l s)
      (fun l' s' =>
         Inv l' s'
         /\ (List.length (ciff_file s') < List.length (ciff_file s))%nat)
      Exc False.

Lemma while_rule (fuel : nat) :
  forall l s, Inv l s ->
    outcome (while fuel cond body l s)
      (fun l' s' => Inv l' s' /\ cond l' s' = false)
      Exc (fuel <= List.length (ciff_file s))%nat.
Proof.
  induction fuel as [|fuel IH]; intros l s HI; cbn [while outcome].
  - lia.
  - destruct (cond l s) eqn:Hc; [|cbn; auto].
    pose proof (body_ok l s HI Hc) as Hb.
    destruct (body l s) as [[l1| e |] s1]; cbn [outcome] in Hb |- *;
      [|assumption|contradiction].
    destruct Hb as [HI1 Hlt]. pose proof (IH l1 s1 HI1) as Hw.
    destruct (while fuel cond body l1 s1) as [[l2| e |] s2];
      cbn [outcome] in Hw |- *; [assumption|assumption|lia].
Qed.
End WhileRule.

(** More fuel never changes a run that did not run out of it. *)
Lemma while_more_fuel {L} (cond : L -> state -> bool) (body : L -> M L)
    (fuel fuel' : nat) l s :
  (fuel <= fuel')%nat ->
  fst (while fuel cond body l s) <> OutOfFuel ->
  while fuel' cond body l s = while fuel cond body l s.
Proof.
  revert fuel' l s. induction fuel as [|fuel IH]; intros fuel' l s Hle Hne.
  - now cbn in Hne.
  - destruct fuel' as [|fuel']; [lia|]. cbn [while] in Hne |- *.
    destruct (cond l s); [|reflexivity].
    destruct (body l s) as [[l1| e |] s1]; try reflexivity.
    apply IH; [lia|assumption].
Qed.

(** ** The caption loop *)

Lemma shorter_after_read (n : nat) (l : list byte) :
  List.length (firstn (S n) l) = S n ->
  (List.length (skipn (S n) l) < List.length l)%nat.
Proof. rewrite length_firstn, length_skipn. lia. Qed.

Lemma decode_one s (c : string) :
  List.length (firstn 1 (ciff_file s)) = 1%nat ->
  decode_from 0 (firstn 1 (ciff_file s)) = inl c ->
  exists a, c = String a EmptyString.
Proof.
  intros Hlen Hdec. destruct (one_byte _ Hlen) as [b Hb].
  rewrite Hb in Hdec. eexists. eapply decode_from_single. eassumption.
Qed.

Lemma count_char_single_neq (a b : ascii) :
  String b EmptyString <> String a EmptyString ->
  count_char a (String b EmptyString) = 0%nat.
Proof.
  intros Hne. cbn. destruct (Ascii.eqb_spec a b) as [->|_]; [|reflexivity].
  now contradiction Hne.
Qed.

Lemma caption_body_ok s0 l s :
  caption_inv s0 l s -> caption_cond l s = true ->
  outcome (caption_body l s)
    (fun l' s' =>
       caption_inv s0 l' s'
       /\ (List.length (ciff_file s') < List.length (ciff_file s))%nat)
    nonempty False.
Proof.
  intros (bs & Hr & Hc & Hn & a & Ha) Hcond.
  unfold caption_cond in Hcond. apply negb_true_iff in Hcond.
  unfold caption_body. mstep.
  split_on (List.length (firstn 1 (ciff_file s)) =? 1)%nat.
  split_on (decode_from 0 (firstn 1 (ciff_file s))).
  - split; [|now apply shorter_after_read].
    exists (bs ++ firstn 1 (ciff_file s)). split.
    { eapply reads_trans; [exact Hr|]. now apply (reads_step 1). }
    split; [assumption|]. cbn [fst snd]. split.
    + rewrite count_char_app, Hn, Ha. rewrite Ha in Hcond.
      now apply count_char_single_neq.
    + eapply decode_one; eassumption.
  - eapply decode_from_error; eassumption.
Qed.

Lemma read_caption_spec fuel s :
  outcome (read_caption fuel s)
    (fun _ s' => exists bs cap, reads s s' bs
                 /\ new_ciff s' = with_caption cap (new_ciff s)
                 /\ count_char "010" cap = 0%nat)
    nonempty (fuel <= List.length (ciff_file s))%nat.
Proof.
  unfold read_caption. mstep.
  split_on (List.length (firstn 1 (ciff_file s)) =? 1)%nat.
  split_on (decode_from 0 (firstn 1 (ciff_file s))).
  2: { eapply decode_from_error; eassumption. }
  set (s1 := mkState (skipn 1 (ciff_file s)) (bytes_read s + 1) (new_ciff s)).
  assert (Hr1 : reads s s1 (firstn 1 (ciff_file s)))
    by now apply (reads_step 1).
  assert (H1 : caption_inv s ("", s0) s1).
  { exists (firstn 1 (ciff_file s)). split; [assumption|].
    split; [reflexivity|]. split; [reflexivity|]. cbn [snd].
    eapply decode_one; eassumption. }
  pose proof (while_rule caption_cond caption_body (caption_inv s) nonempty
                (caption_body_ok s) fuel _ _ H1) as Hw.
  destruct (while fuel caption_cond caption_body ("", s0) s1)
    as [[[cap ch]| e |] s2]; cbn [outcome] in Hw |- *.
  - destruct Hw as [(bs & Hr & Hc & Hn & _) _]. cbn [fst] in *.
    exists bs, cap. split; [assumption|]. split; [|assumption].
    now rewrite Hc.
  - assumption.
  - apply reads_length in Hr1. cbn [ciff_file] in Hw. lia.
Qed.

(** ** The tag loop *)

Lemma tag_ok_snoc (tag : string) :
  count_char "000" tag = 0%nat -> tag_ok (tag ++ NUL)%string.
Proof.
  intros Hn. unfold tag_ok, NUL. split; [|split].
  - destruct tag; discriminate.
  - rewrite count_char_app, Hn. reflexivity.
  - apply last_char_snoc.
Qed.

Lemma tags_body_ok s0 l s :
  tags_inv s0 l s -> tags_cond l s = true ->
  outcome (tags_body l s)
    (fun l' s' =>
       tags_inv s0 l' s'
       /\ (List.length (ciff_file s') < List.length (ciff_file s))%nat)
    nonempty False.
Proof.
  intros (bs & Hr & Hc & Hts & Hn) _.
  unfold tags_body. mstep.
  split_on (List.length (firstn 1 (ciff_file s)) =? 1)%nat.
  split_on (decode_from 0 (firstn 1 (ciff_file s))).
  2: { eapply decode_from_error; eassumption. }
  assert (Hr' : reads s0
            (mkState (skipn 1 (ciff_file s)) (bytes_read s + 1) (new_ciff s))
            (bs ++ firstn 1 (ciff_file s))).
  { eapply reads_trans; [exact Hr|]. now apply (reads_step 1). }
  destruct (decode_one s _ Heqb Heqs1) as [a ->].
  split_on (String a "" =? LF)%string.
  split_on (bytes_read s + 1 =? header_size (new_ciff s));
    split_on (String a "" =? NUL)%string;
    (split; [|now apply shorter_after_read]);
    exists (bs ++ firstn 1 (ciff_file s));
    (split; [assumption|]); (split; [assumption|]); cbn [fst snd].
  - split; [|reflexivity]. apply Forall_app. split; [assumption|].
    constructor; [|constructor]. rewrite Heqb2. now apply tag_ok_snoc.
  - split; [|reflexivity]. apply Forall_app. split; [assumption|].
    constructor; [|constructor]. rewrite Heqb2. now apply tag_ok_snoc.
  - split; [assumption|]. rewrite count_char_app, Hn.
    now apply count_char_single_neq.
Qed.

Lemma read_tags_spec fuel s :
  outcome (read_tags fuel s)
    (fun _ s' => exists bs tgs, reads s s' bs
                 /\ new_ciff s' = with_tags tgs (new_ciff s)
                 /\ Forall tag_ok tgs
                 /\ bytes_read s' = header_size (new_ciff s))
    nonempty (fuel <= List.length (ciff_file s))%nat.
Proof.
  unfold read_tags, bind.
  assert (H0 : tags_inv s ([], "") s).
  { exists []. split; [apply reads_nil|]. split; [reflexivity|].
    split; [constructor|reflexivity]. }
  pose proof (while_rule tags_cond tags_body (tags_inv s) nonempty
                (tags_body_ok s) fuel _ _ H0) as Hw.
  destruct (while fuel tags_cond tags_body ([], "") s)
    as [[[tgs tag]| e |] s1]; cbn [outcome] in Hw |- *; try assumption.
  destruct Hw as [(bs & Hr & Hc & Hts & _) Hexit]. cbn [fst] in *.
  pose proof (check_tags_spec tgs s1) as Hf.
  destruct (for_each tgs check_tag s1) as [[[]| e |] s2];
    cbn [outcome] in Hf |- *; [|assumption|contradiction].
  subst s2. mstep. exists bs, tgs. split; [exact Hr|].
  split; [now rewrite Hc|]. split; [assumption|].
  unfold tags_cond in Hexit. apply negb_false_iff in Hexit.
  reflect_tests. now rewrite <- Hc.
Qed.

(** ** The pixel loop *)

Lemma three_bytes (bs : list byte) :
  List.length bs = 3%nat -> exists r g b, bs = [r; g; b].
Proof. destruct bs as [|r [|g [|b [|? ?]]]]; try discriminate. eauto. Qed.

Lemma with_pixels_same c : with_pixels (pixels c ++ []) c = c.
Proof. destruct c. unfold with_pixels. cbn. now rewrite app_nil_r. Qed.

Lemma with_pixels_snoc c pxs px :
  with_pixels (pixels (with_pixels (pixels c ++ pxs) c) ++ [px])
              (with_pixels (pixels c ++ pxs) c)
  = with_pixels (pixels c ++ (pxs ++ [px])) c.
Proof. unfold with_pixels. cbn. now rewrite app_assoc. Qed.

Lemma pixels_body_ok s0 k l s :
  header_size (new_ciff s0) + content_size (new_ciff s0)
  = bytes_read s0 + 3 * k ->
  pixels_inv s0 k l s -> pixels_cond l s = true ->
  outcome (pixels_body l s)
    (fun l' s' =>
       pixels_inv s0 k l' s'
       /\ (List.length (ciff_file s') < List.length (ciff_file s))%nat)
    nonempty False.
Proof.
  intros Hk (bs & pxs & Hr & Hc & Hlen & Hle) Hcond.
  unfold pixels_cond in Hcond. rewrite Hc in Hcond.
  cbn [header_size content_size with_pixels] in Hcond. reflect_tests.
  unfold pixels_body. mstep.
  split_on (List.length (firstn 3 (ciff_file s)) =? 3)%nat.
  destruct (three_bytes _ Heqb) as (r & g & b & Hrgb).
  rewrite Hrgb. unfold unpack_BBB. mstep.
  split; [|now apply shorter_after_read].
  exists (bs ++ firstn 3 (ciff_file s)),
         (pxs ++ [(byte_val r, byte_val g, byte_val b)]).
  split.
  { eapply reads_trans; [exact Hr|]. now apply (reads_step 3). }
  split; [rewrite Hc; apply with_pixels_snoc|].
  destruct Hr as [_ Hbr]. rewrite !length_app, Heqb. cbn [List.length].
  lia.
Qed.

Lemma read_pixels_spec fuel s k :
  header_size (new_ciff s) + content_size (new_ciff s)
  = bytes_read s + 3 * k ->
  0 <= k ->
  outcome (read_pixels fuel s)
    (fun _ s' => exists bs pxs, reads s s' bs
                 /\ new_ciff s'
                    = with_pixels (pixels (new_ciff s) ++ pxs) (new_ciff s)
                 /\ Z.of_nat (List.length pxs) = k
                 /\ bytes_read s'
                    = header_size (new_ciff s) + content_size (new_ciff s))
    nonempty (fuel <= List.length (ciff_file s))%nat.
Proof.
  intros Hk Hk0. unfold read_pixels.
  assert (H0 : pixels_inv s k tt s).
  { exists [], []. split; [apply reads_nil|].
    split; [symmetry; apply with_pixels_same|]. cbn. lia. }
  pose proof (while_rule pixels_cond pixels_body (pixels_inv s k) nonempty
                (fun l s' => pixels_body_ok s k l s' Hk) fuel _ _ H0) as Hw.
  destruct (while fuel pixels_cond pixels_body tt s) as [[[]| e |] s1];
    cbn [outcome] in Hw |- *; try assumption.
  destruct Hw as [(bs & pxs & Hr & Hc & Hlen & Hle) Hexit].
  unfold pixels_cond in Hexit. rewrite Hc in Hexit.
  cbn [header_size content_size with_pixels] in Hexit. reflect_tests.
  exists bs, pxs. split; [assumption|]. split; [assumption|].
  destruct Hr as [_ Hbr]. lia.
Qed.

(** ** The whole [try] body *)

Lemma outcome_bind {A B} (m : M A) (k : A -> M B) (s : state)
    (PN : A -> state -> Prop) (QN : B -> state -> Prop)
    (QR : string -> state -> Prop) (QF' QF : Prop) :
  outcome (m s) PN QR QF' ->
  (QF' -> QF) ->
  (forall a s1, PN a s1 -> outcome (k a s1) QN QR QF) ->
  outcome (bind m k s) QN QR QF.
Proof.
  intros Hm Hf Hk. unfold bind.
  destruct (m s) as [[a| e |] s1]; cbn [outcome] in Hm |- *; auto.
Qed.

Lemma header_fields (b1 b2 b3 b4 b5 rest : list byte) :
  List.length b1 = 4%nat -> List.length b2 = 8%nat ->
  List.length b3 = 8%nat -> List.length b4 = 8%nat ->
  List.length b5 = 8%nat ->
  let stream := b1 ++ b2 ++ b3 ++ b4 ++ b5 ++ rest in
  field_at 4 stream = le_uint b2 /\ field_at 12 stream = le_uint b3
  /\ field_at 20 stream = le_uint b4 /\ field_at 28 stream = le_uint b5.
Proof.
  intros L1 L2 L3 L4 L5 stream. unfold field_at, stream.
  repeat split.
  - rewrite (skipn_exact b1) by assumption. now rewrite firstn_exact.
  - rewrite (app_assoc b1 b2).
    rewrite skipn_exact by (rewrite length_app; lia).
    now rewrite firstn_exact.
  - rewrite (app_assoc b1 b2), (app_assoc (b1 ++ b2) b3).
    rewrite skipn_exact by (rewrite !length_app; lia).
    now rewrite firstn_exact.
  - rewrite (app_assoc b1 b2), (app_assoc (b1 ++ b2) b3),
      (app_assoc ((b1 ++ b2) ++ b3) b4).
    rewrite skipn_exact by (rewrite !length_app; lia).
    now rewrite firstn_exact.
Qed.

Ltac after_block lemma :=
  eapply outcome_bind; [apply lemma | try contradiction | ].

Lemma parse_body_spec fuel stream :
  outcome (parse_body fuel (initial stream))
    (fun _ s' => accepted stream s')
    nonempty (fuel <= List.length stream)%nat.
Proof.
  unfold parse_body.
  after_block read_magic_spec. intros _ s1 (b1 & L1 & R1 & C1).
  after_block read_header_size_spec. intros _ s2 (b2 & L2 & R2 & C2 & Hmin).
  after_block read_content_size_spec. intros _ s3 (b3 & L3 & R3 & C3).
  after_block read_width_spec. intros _ s4 (b4 & L4 & R4 & C4).
  after_block read_height_spec. intros _ s5 (b5 & L5 & R5 & C5 & Hid).
  pose proof (reads_trans _ _ _ _ _ R1 R2) as R12.
  pose proof (reads_trans _ _ _ _ _ R12 R3) as R13.
  pose proof (reads_trans _ _ _ _ _ R13 R4) as R14.
  pose proof (reads_trans _ _ _ _ _ R14 R5) as R15.
  after_block (read_caption_spec fuel).
  { apply reads_length in R15. cbn [initial ciff_file] in R15. lia. }
  intros _ s6 (b6 & cap & R6 & C6 & Hcap).
  pose proof (reads_trans _ _ _ _ _ R15 R6) as R16.
  after_block (read_tags_spec fuel).
  { apply reads_length in R16. cbn [initial ciff_file] in R16. lia. }
  intros _ s7 (b7 & tgs & R7 & C7 & Htags & Hhs).
  pose proof (reads_trans _ _ _ _ _ R16 R7) as R17.
  rewrite C4, C3, C2, C1 in Hid.
  cbn [content_size width with_width with_content_size with_header_size
       with_magic] in Hid.
  assert (Hk : header_size (new_ciff s7) + content_size (new_ciff s7)
               = bytes_read s7 + 3 * (le_uint b4 * le_uint b5)).
  { rewrite Hhs, C7, C6, C5, C4, C3, C2, C1.
    cbn [header_size content_size with_tags with_caption with_height
         with_width with_content_size with_header_size with_magic].
    lia. }
  after_block (read_pixels_spec fuel s7 (le_uint b4 * le_uint b5) Hk).
  { pose proof (le_uint_nonneg b4). pose proof (le_uint_nonneg b5). nia. }
  { apply reads_length in R17. cbn [initial ciff_file] in R17. lia. }
  intros _ s8 (b8 & pxs & R8 & C8 & Hpx & Hbr).
  pose proof (reads_trans _ _ _ _ _ R17 R8) as R18.
  pose proof (check_eof_spec s8) as He.
  destruct (check_eof s8) as [[[]| e |] s9]; cbn [outcome] in He |- *;
    [|assumption|contradiction].
  destruct He as (F8 & F9 & B9 & C9).
  destruct R18 as [Hstream Hcount]. rewrite F8, app_nil_r in Hstream.
  cbn [initial ciff_file bytes_read] in Hstream, Hcount.
  assert (Hlen : Z.of_nat (List.length stream) = bytes_read s8).
  { rewrite Hcount, Hstream. lia. }
  assert (Hfields := header_fields b1 b2 b3 b4 b5 (b6 ++ b7 ++ b8)
                       L1 L2 L3 L4 L5).
  cbn zeta in Hfields.
  replace (b1 ++ b2 ++ b3 ++ b4 ++ b5 ++ b6 ++ b7 ++ b8) with stream
    in Hfields by (rewrite Hstream, <- !app_assoc; reflexivity).
  destruct Hfields as (F4 & F12 & F20 & F28).
  assert (Hc9 : new_ciff s9
                = mkCIFF "CIFF" (le_uint b2) (le_uint b3) (le_uint b4)
                         (le_uint b5) cap tgs pxs true "").
  { rewrite C9, C8, C7, C6, C5, C4, C3, C2, C1. reflexivity. }
  assert (Hhs8 : header_size (new_ciff s8) + content_size (new_ciff s8)
                 = le_uint b2 + le_uint b3).
  { rewrite <- C9, Hc9. reflexivity. }
  assert (Hhs7 : header_size (new_ciff s7) + content_size (new_ciff s7)
                 = le_uint b2 + le_uint b3).
  { rewrite C7, C6, C5, C4, C3, C2, C1. reflexivity. }
  constructor; rewrite ?Hc9; cbn [magic header_size content_size width height
    caption tags pixels is_valid error_message]; auto; try lia.
Qed.

(** ** The [except] clause and the returned object *)

Lemma parse_ciff_file_outcome fuel stream :
  (List.length stream < fuel)%nat ->
  (exists s', parse_body fuel (initial stream) = (Normal tt, s')
              /\ accepted stream s'
              /\ parse_ciff_file fuel (initial stream)
                 = (Normal (new_ciff s'), s'))
  \/ (exists e s', parse_body fuel (initial stream) = (Raised e, s')
                   /\ e <> ""
                   /\ parse_ciff_file fuel (initial stream)
                      = (Normal (rejected e s'),
                         mkState (ciff_file s') (bytes_read s')
                                 (rejected e s'))).
Proof.
  intros Hfuel. pose proof (parse_body_spec fuel stream) as H.
  unfold parse_ciff_file, try_except, bind.
  destruct (parse_body fuel (initial stream)) as [[[]| e |] s'];
    cbn [outcome] in H.
  - left. exists s'. auto.
  - right. exists e, s'. auto.
  - lia.
Qed.

Lemma decode_outcome stream :
  (exists s', accepted stream s' /\ decode stream = Normal (new_ciff s'))
  \/ (exists e s',
        parse_body (fuel_for stream) (initial stream) = (Raised e, s')
        /\ e <> "" /\ decode stream = Normal (rejected e s')).
Proof.
  unfold decode.
  destruct (parse_ciff_file_outcome (fuel_for stream) stream)
    as [(s' & _ & Ha & Hp)|(e & s' & Hb & He & Hp)];
    [unfold fuel_for; lia| |]; rewrite Hp.
  - left. eauto.
  - right. eauto.
Qed.

(** A returned object is valid exactly when the body ran to its end. *)
Lemma decode_valid stream c :
  decode stream = Normal c -> is_valid c = true ->
  exists s', accepted stream s' /\ c = new_ciff s'.
Proof.
  intros Hd Hv.
  destruct (decode_outcome stream) as [(s' & Ha & Hs)|(e & s' & _ & _ & Hs)];
    rewrite Hs in Hd; injection Hd as <-.
  - eauto.
  - discriminate.
Qed.

(** ** The claims *)

(** C1. For every byte stream, [parse_ciff_file] hands back a [CIFF]
    object and no exception reaches the caller; whenever the body raised
    (short read, decode failure or violated constraint) the object has
    [is_valid = false] and carries that exception's message; and the
    message is nonempty exactly when [is_valid] is false. *)
Theorem C1_failures_are_reported (stream : list byte) :
  exists c, decode stream = Normal c
    /\ (error_message c <> "" <-> is_valid c = false)
    /\ (forall e s',
          parse_body (fuel_for stream) (initial stream) = (Raised e, s')
          -> is_valid c = false /\ error_message c = e).
Proof.
  pose proof (parse_ciff_file_outcome (fuel_for stream) stream) as Ho.
  unfold decode.
  destruct Ho as [(s' & Hb & Ha & Hp)|(e & s' & Hb & He & Hp)];
    [unfold fuel_for; lia| |]; rewrite Hp; cbn [fst].
  - exists (new_ciff s'). split; [reflexivity|]. split.
    + rewrite (acc_message _ _ Ha), (acc_valid _ _ Ha).
      split; [congruence|discriminate].
    + intros e s1 Hb1. rewrite Hb in Hb1. discriminate.
  - exists (rejected e s'). split; [reflexivity|]. split.
    + cbn. split; [reflexivity|intros _; assumption].
    + intros e1 s1 Hb1. rewrite Hb in Hb1. injection Hb1 as <- <-.
      split; reflexivity.
Qed.

(** C2. The sample file (magic, header size 39, content size 3, width 1,
    height 1, empty caption, the tag bytes 'x' and 0, the pixel bytes
    10, 20, 30) is accepted, with the one pixel (10,20,30) and the one
    tag made of 'x' and the null character. *)
Theorem C2_sample_file_accepted :
  sample_file
  = [x43; x49; x46; x46;
     x27; x00; x00; x00; x00; x00; x00; x00;
     x03; x00; x00; x00; x00; x00; x00; x00;
     x01; x00; x00; x00; x00; x00; x00; x00;
     x01; x00; x00; x00; x00; x00; x00; x00;
     x0a; x78; x00; x0a; x14; x1e]
  /\ decode sample_file = Normal sample_ciff
  /\ is_valid sample_ciff = true
  /\ pixels sample_ciff = [(10, 20, 30)]
  /\ tags sample_ciff = [String "x" (String "000" "")].
Proof. repeat split; vm_compute; reflexivity. Qed.

(** C3. An accepted file has a header size of at least 38, a content size
    equal to width * height * 3, and exactly width * height pixels. *)
Theorem C3_sizes_of_accepted (stream : list byte) (c : CIFF) :
  decode stream = Normal c -> is_valid c = true ->
  38 <= header_size c
  /\ content_size c = width c * height c * 3
  /\ Z.of_nat (List.length (pixels c)) = width c * height c.
Proof.
  intros Hd Hv. destruct (decode_valid _ _ Hd Hv) as (s' & Ha & ->).
  split; [exact (acc_min _ _ Ha)|].
  split; [exact (acc_identity _ _ Ha)|exact (acc_pixels _ _ Ha)].
Qed.

Lemma C3_sizes_of_accepted_witness :
  decode sample_file = Normal sample_ciff
  /\ is_valid sample_ciff = true
  /\ 38 <= header_size sample_ciff
  /\ content_size sample_ciff = width sample_ciff * height sample_ciff * 3
  /\ Z.of_nat (List.length (pixels sample_ciff))
     = width sample_ciff * height sample_ciff.
Proof.
  split; [reflexivity|]. split; [reflexivity|].
  apply (C3_sizes_of_accepted sample_file sample_ciff); reflexivity.
Defined.

(** C4, as stated, fails: an accepted file may have a null character in
    its caption. *)
Lemma C4_null_in_caption :
  ~ (forall stream c,
       decode stream = Normal c -> is_valid c = true ->
       count_char "010" (caption c) = 0%nat
       /\ count_char "000" (caption c) = 0%nat).
Proof.
  intros H.
  destruct (H null_caption_file null_caption_ciff eq_refl eq_refl)
    as [_ Hnul].
  discriminate Hnul.
Qed.

(** C4, amended. The caption of an accepted file contains no newline
    character (null characters are not excluded). *)
Theorem C4_no_newline_in_caption (stream : list byte) (c : CIFF) :
  decode stream = Normal c -> is_valid c = true ->
  count_char "010" (caption c) = 0%nat.
Proof.
  intros Hd Hv. destruct (decode_valid _ _ Hd Hv) as (s' & Ha & ->).
  exact (acc_caption _ _ Ha).
Qed.

Lemma C4_no_newline_in_caption_witness :
  decode null_caption_file = Normal null_caption_ciff
  /\ is_valid null_caption_ciff = true
  /\ count_char "010" (caption null_caption_ciff) = 0%nat.
Proof.
  split; [reflexivity|]. split; [reflexivity|].
  apply (C4_no_newline_in_caption null_caption_file); reflexivity.
Defined.

(** C5. The parser at a file whose header ends with the caption's newline:
    the tag loop is not entered, so its last-byte test never runs; the
    file is accepted with no tag although the byte at offset
    [header_size - 1] is a newline, not a null. *)
Theorem C5_newline_ended_header_accepted :
  exists c,
    decode newline_ended_file = Normal c
    /\ is_valid c = true
    /\ header_size c = 38
    /\ tags c = []
    /\ nth_error newline_ended_file (Z.to_nat (header_size c - 1))
       = Some x0a.
Proof.
  exists (mkCIFF "CIFF" 38 0 0 0 "a" [] [] true "").
  repeat split; vm_compute; reflexivity.
Qed.

(** ** Fields depend on a prefix of the file only *)

Lemma field_at_firstn (off n : nat) (l : list byte) :
  (off + 8 <= n)%nat -> field_at off (firstn n l) = field_at off l.
Proof.
  intros Hn. unfold field_at.
  rewrite !firstn_skipn_comm, firstn_firstn.
  now replace (Nat.min (off + 8) n) with (off + 8)%nat by lia.
Qed.

Lemma field_at_app (off : nat) (l extra : list byte) :
  (off + 8 <= List.length l)%nat -> field_at off (l ++ extra) = field_at off l.
Proof.
  intros Hn.
  rewrite <- (field_at_firstn off (List.length l) (l ++ extra)) by assumption.
  now rewrite firstn_exact.
Qed.

Lemma field_at_removelast (off : nat) (l : list byte) :
  (off + 8 < List.length l)%nat -> field_at off (removelast l) = field_at off l.
Proof.
  intros Hn. rewrite removelast_firstn_len. apply field_at_firstn. lia.
Qed.

Lemma length_removelast (l : list byte) :
  l <> [] -> List.length (removelast l) = (List.length l - 1)%nat.
Proof.
  intros _. rewrite removelast_firstn_len, length_firstn. lia.
Qed.

(** An accepted file is as long as its two size fields say, and at least
    38 bytes long. *)
Lemma accepted_length stream s' :
  accepted stream s' ->
  Z.of_nat (List.length stream) = field_at 4 stream + field_at 12 stream
  /\ (38 <= List.length stream)%nat.
Proof.
  intros Ha.
  pose proof (acc_total _ _ Ha) as Ht. pose proof (acc_min _ _ Ha) as Hm.
  pose proof (acc_identity _ _ Ha) as Hi.
  rewrite (acc_width _ _ Ha), (acc_height _ _ Ha) in Hi.
  rewrite (acc_header_size _ _ Ha) in Ht, Hm.
  rewrite (acc_content_size _ _ Ha) in Ht, Hi.
  split; [assumption|].
  assert (0 <= field_at 20 stream) by apply le_uint_nonneg.
  assert (0 <= field_at 28 stream) by apply le_uint_nonneg.
  nia.
Qed.

(** A file of another length with the same two size fields is rejected. *)
Lemma other_length_rejected (stream other : list byte) s' :
  accepted stream s' ->
  field_at 4 other = field_at 4 stream ->
  field_at 12 other = field_at 12 stream ->
  List.length other <> List.length stream ->
  exists c', decode other = Normal c' /\ is_valid c' = false.
Proof.
  intros Ha H4 H12 Hlen.
  destruct (decode_outcome other) as [(s2 & Ha2 & Hs)|(e & s2 & _ & _ & Hs)].
  - exfalso. apply accepted_length in Ha, Ha2. lia.
  - exists (rejected e s2). split; [assumption|reflexivity].
Qed.

(** C6. An accepted file is exactly [header_size + content_size] bytes
    long and is read to its end; the same file without its last byte is
    rejected, and so is the file with one more byte appended. *)
Theorem C6_exact_length (stream : list byte) (c : CIFF) :
  decode stream = Normal c -> is_valid c = true ->
  Z.of_nat (List.length stream) = header_size c + content_size c
  /\ (exists s', parse_ciff_file (fuel_for stream) (initial stream)
                 = (Normal c, s')
                 /\ ciff_file s' = []
                 /\ bytes_read s' = Z.of_nat (List.length stream))
  /\ (exists c', decode (removelast stream) = Normal c'
                 /\ is_valid c' = false)
  /\ (forall b, exists c', decode (stream ++ [b]) = Normal c'
                           /\ is_valid c' = false).
Proof.
  intros Hd Hv.
  destruct (parse_ciff_file_outcome (fuel_for stream) stream)
    as [(s' & _ & Ha & Hp)|(e & s' & _ & _ & Hp)];
    [unfold fuel_for; lia| |];
    unfold decode in Hd; rewrite Hp in Hd; injection Hd as <-;
    [|discriminate].
  pose proof (accepted_length _ _ Ha) as [_ Hlong].
  split; [exact (acc_total _ _ Ha)|]. split; [|split].
  - exists s'. split; [assumption|].
    split; [exact (acc_file _ _ Ha)|exact (acc_count _ _ Ha)].
  - apply (other_length_rejected stream _ s' Ha).
    + apply field_at_removelast. lia.
    + apply field_at_removelast. lia.
    + rewrite length_removelast by (destruct stream; [cbn in Hlong; lia|discriminate]).
      lia.
  - intros b. apply (other_length_rejected stream _ s' Ha).
    + apply field_at_app. lia.
    + apply field_at_app. lia.
    + rewrite length_app. cbn. lia.
Qed.

Lemma C6_exact_length_witness :
  decode sample_file = Normal sample_ciff
  /\ is_valid sample_ciff = true
  /\ Z.of_nat (List.length sample_file)
     = header_size sample_ciff + content_size sample_ciff
  /\ (exists s', parse_ciff_file (fuel_for sample_file) (initial sample_file)
                 = (Normal sample_ciff, s')
                 /\ ciff_file s' = []
                 /\ bytes_read s' = Z.of_nat (List.length sample_file))
  /\ (exists c', decode (removelast sample_file) = Normal c'
                 /\ is_valid c' = false)
  /\ (forall b, exists c', decode (sample_file ++ [b]) = Normal c'
                           /\ is_valid c' = false).
Proof.
  split; [reflexivity|]. split; [reflexivity|].
  apply (C6_exact_length sample_file sample_ciff); reflexivity.
Defined.

(** ** Running the fixed fields forward *)

Ltac at_prefix :=
  mstep;
  rewrite ?firstn_exact, ?skipn_exact by assumption;
  match goal with
  | H : List.length ?bs = _ |- context [List.length ?bs] => rewrite H
  end;
  cbn [Nat.eqb negb]; mstep.

Lemma read_magic_run (rest : list byte) (br : Z) (c : CIFF) :
  read_magic (mkState ([x43; x49; x46; x46] ++ rest) br c)
  = (Normal tt, mkState rest (br + 4) (with_magic "CIFF" c)).
Proof. reflexivity. Qed.

Lemma read_header_size_run (bs rest : list byte) (br : Z) (c : CIFF) :
  List.length bs = 8%nat -> 38 <= le_uint bs ->
  read_header_size (mkState (bs ++ rest) br c)
  = (Normal tt, mkState rest (br + 8) (with_header_size (le_uint bs) c)).
Proof.
  intros Hlen Hmin. unfold read_header_size. at_prefix.
  cbn [header_size with_header_size].
  apply Z.ltb_ge in Hmin. now rewrite Hmin.
Qed.

Lemma read_content_size_run (bs rest : list byte) (br : Z) (c : CIFF) :
  List.length bs = 8%nat ->
  read_content_size (mkState (bs ++ rest) br c)
  = (Normal tt, mkState rest (br + 8) (with_content_size (le_uint bs) c)).
Proof. intros Hlen. unfold read_content_size. now at_prefix. Qed.

Lemma read_width_run (bs rest : list byte) (br : Z) (c : CIFF) :
  List.length bs = 8%nat ->
  read_width (mkState (bs ++ rest) br c)
  = (Normal tt, mkState rest (br + 8) (with_width (le_uint bs) c)).
Proof. intros Hlen. unfold read_width. now at_prefix. Qed.

Lemma read_height_mismatch (bs rest : list byte) (br : Z) (c : CIFF) :
  List.length bs = 8%nat ->
  content_size c <> width c * le_uint bs * 3 ->
  read_height (mkState (bs ++ rest) br c)
  = (Raised "Invalid image format: content size not equal to width*height*3",
     mkState rest (br + 8) (with_height (le_uint bs) c)).
Proof.
  intros Hlen Hne. unfold read_height. at_prefix.
  cbn [content_size width height with_height].
  apply Z.eqb_neq in Hne. now rewrite Hne.
Qed.

(** C7. A file that starts with the magic, a header size of at least 38,
    and a content size other than width * height * 3 is rejected with the
    content-size message; the 36 bytes of the fixed fields are all that is
    read, and caption, tags and pixels stay empty. *)
Theorem C7_content_size_mismatch
    (fuel : nat) (hs cs w h rest : list byte) :
  List.length hs = 8%nat -> List.length cs = 8%nat ->
  List.length w = 8%nat -> List.length h = 8%nat ->
  38 <= le_uint hs ->
  le_uint cs <> le_uint w * le_uint h * 3 ->
  let stream := [x43; x49; x46; x46] ++ hs ++ cs ++ w ++ h ++ rest in
  let c :=
    mkCIFF "CIFF" (le_uint hs) (le_uint cs) (le_uint w) (le_uint h)
           "" [] [] false
           "Invalid image format: content size not equal to width*height*3" in
  parse_ciff_file fuel (initial stream) = (Normal c, mkState rest 36 c).
Proof.
  intros Lhs Lcs Lw Lh Hmin Hne stream c.
  unfold parse_ciff_file, try_except, parse_body, bind, initial, stream.
  rewrite read_magic_run, read_header_size_run by assumption.
  rewrite read_content_size_run, read_width_run by assumption.
  rewrite read_height_mismatch by assumption.
  reflexivity.
Qed.

Lemma C7_content_size_mismatch_witness :
  38 <= le_uint (encode_le 8 39)
  /\ le_uint (encode_le 8 4)
     <> le_uint (encode_le 8 1) * le_uint (encode_le 8 1) * 3
  /\ parse_ciff_file 0
       (initial (ciff_bytes 39 4 1 1 [x0a; x78; x00; x0a; x14; x1e]))
     = (Normal (mkCIFF "CIFF" 39 4 1 1 "" [] [] false
          "Invalid image format: content size not equal to width*height*3"),
        mkState [x0a; x78; x00; x0a; x14; x1e] 36
          (mkCIFF "CIFF" 39 4 1 1 "" [] [] false
             "Invalid image format: content size not equal to width*height*3")).
Proof.
  assert (Hmin : 38 <= le_uint (encode_le 8 39))
    by (vm_compute; discriminate).
  assert (Hne : le_uint (encode_le 8 4)
                <> le_uint (encode_le 8 1) * le_uint (encode_le 8 1) * 3)
    by (vm_compute; discriminate).
  split; [exact Hmin|]. split; [exact Hne|].
  exact (C7_content_size_mismatch 0
           (encode_le 8 39) (encode_le 8 4) (encode_le 8 1) (encode_le 8 1)
           [x0a; x78; x00; x0a; x14; x1e]
           eq_refl eq_refl eq_refl eq_refl Hmin Hne).
Defined.

Lemma read_magic_wrong (b0 b1 b2 b3 : byte) (rest : list byte)
    (br : Z) (c : CIFF) :
  is_ascii b0 = true -> is_ascii b1 = true ->
  is_ascii b2 = true -> is_ascii b3 = true ->
  four_chars b0 b1 b2 b3 <> "CIFF" ->
  read_magic (mkState (b0 :: b1 :: b2 :: b3 :: rest) br c)
  = (Raised "Error parsing magic bytes",
     mkState rest (br + 4)
       (with_is_valid false (with_magic (four_chars b0 b1 b2 b3) c))).
Proof.
  intros H0 H1 H2 H3 Hne. unfold read_magic. mstep.
  cbn [firstn skipn List.length Nat.eqb negb decode_from].
  rewrite H0, H1, H2, H3. mstep. cbn [magic with_magic].
  apply String.eqb_neq in Hne. unfold four_chars in Hne. rewrite Hne.
  reflexivity.
Qed.

(** C8. A file whose first four bytes are ASCII but do not spell the
    magic is rejected, and the object keeps the four characters that were
    read as its [magic]. *)
Theorem C8_wrong_magic_is_kept
    (fuel : nat) (b0 b1 b2 b3 : byte) (rest : list byte) :
  is_ascii b0 = true -> is_ascii b1 = true ->
  is_ascii b2 = true -> is_ascii b3 = true ->
  four_chars b0 b1 b2 b3 <> "CIFF" ->
  exists c,
    fst (parse_ciff_file fuel (initial (b0 :: b1 :: b2 :: b3 :: rest)))
    = Normal c
    /\ is_valid c = false
    /\ magic c = four_chars b0 b1 b2 b3
    /\ error_message c = "Error parsing magic bytes".
Proof.
  intros H0 H1 H2 H3 Hne.
  unfold parse_ciff_file, try_except, parse_body, bind, initial.
  rewrite read_magic_wrong by assumption.
  eexists. split; [reflexivity|]. repeat split.
Qed.

Lemma C8_wrong_magic_is_kept_witness :
  four_chars x43 x49 x47 x46 = "CIGF"
  /\ four_chars x43 x49 x47 x46 <> "CIFF"
  /\ exists c,
       fst (parse_ciff_file 0 (initial [x43; x49; x47; x46; x00]))
       = Normal c
       /\ is_valid c = false
       /\ magic c = four_chars x43 x49 x47 x46
       /\ error_message c = "Error parsing magic bytes".
Proof.
  assert (Hne : four_chars x43 x49 x47 x46 <> "CIFF") by discriminate.
  split; [reflexivity|]. split; [exact Hne|].
  exact (C8_wrong_magic_is_kept 0 x43 x49 x47 x46 [x00]
           eq_refl eq_refl eq_refl eq_refl Hne).
Defined.

(** ** Termination *)

Lemma stable_const {A} (m : M A) : fuel_stable (fun _ => m).
Proof. intros fuel fuel' s _ _. reflexivity. Qed.

Lemma stable_while {L} (cond : L -> state -> bool) (body : L -> M L) (l : L) :
  fuel_stable (fun fuel => while fuel cond body l).
Proof. intros fuel fuel' s Hle Hne. now apply while_more_fuel. Qed.

Lemma stable_bind {A B} (m : nat -> M A) (k : nat -> A -> M B) :
  fuel_stable m -> (forall a, fuel_stable (fun fuel => k fuel a)) ->
  fuel_stable (fun fuel => bind (m fuel) (k fuel)).
Proof.
  intros Hm Hk fuel fuel' s Hle Hne. unfold bind in *.
  destruct (m fuel s) as [[a| e |] s1] eqn:E.
  - rewrite (Hm fuel fuel' s Hle) by (rewrite E; discriminate).
    rewrite E. now apply Hk.
  - rewrite (Hm fuel fuel' s Hle) by (rewrite E; discriminate).
    now rewrite E.
  - now contradiction Hne.
Qed.

Lemma stable_try_except (m : nat -> M unit) (handler : string -> M unit) :
  fuel_stable m -> fuel_stable (fun fuel => try_except (m fuel) handler).
Proof.
  intros Hm fuel fuel' s Hle Hne. unfold try_except in *.
  destruct (m fuel s) as [[a| e |] s1] eqn:E.
  - rewrite (Hm fuel fuel' s Hle) by (rewrite E; discriminate). now rewrite E.
  - rewrite (Hm fuel fuel' s Hle) by (rewrite E; discriminate). now rewrite E.
  - now contradiction Hne.
Qed.

Ltac stable :=
  repeat first
    [ apply stable_const
    | apply stable_while
    | apply stable_try_except
    | apply stable_bind; [|intro] ].

Lemma stable_parse_ciff_file : fuel_stable parse_ciff_file.
Proof.
  unfold parse_ciff_file, parse_body, read_caption, read_tags, read_pixels.
  stable.
Qed.

(** From any state, an iteration of the caption loop that does not raise
    has read a byte. *)
Lemma caption_body_reads l s :
  outcome (caption_body l s)
    (fun _ s' =>
       True /\ (List.length (ciff_file s') < List.length (ciff_file s))%nat)
    (fun _ _ => True) False.
Proof.
  unfold caption_body. mstep.
  split_on (List.length (firstn 1 (ciff_file s)) =? 1)%nat; [|exact I].
  split_on (decode_from 0 (firstn 1 (ciff_file s))); [|exact I].
  split; [exact I|now apply shorter_after_read].
Qed.

(** From any state, an iteration of the tag loop that does not raise has
    read a byte, and leaves the counter above the header size if it was. *)
Lemma tags_body_reads l s :
  outcome (tags_body l s)
    (fun _ s' =>
       (header_size (new_ciff s) < bytes_read s ->
        header_size (new_ciff s') < bytes_read s')
       /\ (List.length (ciff_file s') < List.length (ciff_file s))%nat)
    (fun _ _ => True) False.
Proof.
  unfold tags_body. mstep.
  split_on (List.length (firstn 1 (ciff_file s)) =? 1)%nat; [|exact I].
  split_on (decode_from 0 (firstn 1 (ciff_file s))); [|exact I].
  split_on (s0 =? LF)%string; [exact I|].
  split_on ((bytes_read s + 1 =? header_size (new_ciff s))
            && negb (s0 =? NUL)%string)%bool; [exact I|].
  split; [lia|now apply shorter_after_read].
Qed.

Lemma tags_body_past l s :
  header_size (new_ciff s) < bytes_read s -> tags_cond l s = true ->
  outcome (tags_body l s)
    (fun _ s' =>
       header_size (new_ciff s') < bytes_read s'
       /\ (List.length (ciff_file s') < List.length (ciff_file s))%nat)
    (fun _ _ => True) False.
Proof.
  intros Hover _. pose proof (tags_body_reads l s) as H.
  destruct (tags_body l s) as [[l'| e |] s']; cbn [outcome] in H |- *;
    [|assumption|assumption].
  destruct H as [Hkeep Hlt]. auto.
Qed.

(** With a counter already past the header size, the tag loop can only
    end by raising. *)
Lemma tags_loop_overshoot fuel l s :
  (List.length (ciff_file s) < fuel)%nat ->
  header_size (new_ciff s) < bytes_read s ->
  exists e s', while fuel tags_cond tags_body l s = (Raised e, s').
Proof.
  intros Hfuel Hover.
  pose proof (while_rule tags_cond tags_body
                (fun _ s1 => header_size (new_ciff s1) < bytes_read s1)
                (fun _ _ => True) tags_body_past fuel l s Hover) as Hw.
  destruct (while fuel tags_cond tags_body l s) as [[l'| e |] s'];
    cbn [outcome] in Hw.
  - destruct Hw as [Hgt Hexit]. unfold tags_cond in Hexit.
    apply negb_false_iff in Hexit. reflect_tests. lia.
  - eauto.
  - lia.
Qed.

Example long_caption_overshoots :
  decode long_caption_file
  = Normal (mkCIFF "CIFF" 38 0 0 0 "abc" [] [] false "Invalid image: tags").
Proof. vm_compute. reflexivity. Qed.

(** C9. With more fuel than the file has bytes, [parse_ciff_file] ends and
    hands back an object, the same whatever the fuel; the caption loop and
    the tag loop end from any state, since every iteration reads a byte or
    raises; and a tag loop entered with the counter already past
    [header_size] ends by raising. *)
Theorem C9_termination (stream : list byte) (fuel : nat) :
  (List.length stream < fuel)%nat ->
  (exists c s', parse_ciff_file fuel (initial stream) = (Normal c, s')
                /\ decode stream = Normal c)
  /\ (forall l s, (List.length (ciff_file s) < fuel)%nat ->
        fst (while fuel caption_cond caption_body l s) <> OutOfFuel)
  /\ (forall l s, (List.length (ciff_file s) < fuel)%nat ->
        fst (while fuel tags_cond tags_body l s) <> OutOfFuel)
  /\ (forall l s, (List.length (ciff_file s) < fuel)%nat ->
        header_size (new_ciff s) < bytes_read s ->
        exists e s', while fuel tags_cond tags_body l s = (Raised e, s')).
Proof.
  intros Hfuel. split; [|split; [|split]].
  - assert (Hfst : exists c s1,
              parse_ciff_file (fuel_for stream) (initial stream)
              = (Normal c, s1)).
    { destruct (parse_ciff_file_outcome (fuel_for stream) stream)
        as [(s1 & _ & _ & Hp)|(e & s1 & _ & _ & Hp)];
        [unfold fuel_for; lia| |]; eauto. }
    destruct Hfst as (c & s1 & Hp). exists c, s1. split.
    + rewrite <- Hp. apply stable_parse_ciff_file.
      * unfold fuel_for. lia.
      * rewrite Hp. discriminate.
    + unfold decode. now rewrite Hp.
  - intros l s Hs.
    pose proof (while_rule caption_cond caption_body (fun _ _ => True)
                  (fun _ _ => True)
                  (fun l1 s1 _ _ => caption_body_reads l1 s1) fuel l s I)
      as Hw.
    destruct (while fuel caption_cond caption_body l s) as [[l'| e |] s'];
      cbn [outcome fst] in Hw |- *; [discriminate|discriminate|lia].
  - intros l s Hs.
    pose proof (while_rule tags_cond tags_body (fun _ _ => True)
                  (fun _ _ => True)) as Hw.
    assert (Hbody : forall l1 s1, True -> tags_cond l1 s1 = true ->
              outcome (tags_body l1 s1)
                (fun _ s2 =>
                   True /\ (List.length (ciff_file s2)
                            < List.length (ciff_file s1))%nat)
                (fun _ _ => True) False).
    { intros l1 s1 _ _. pose proof (tags_body_reads l1 s1) as H.
      destruct (tags_body l1 s1) as [[l2| e |] s2]; cbn [outcome] in H |- *;
        [|assumption|assumption].
      split; [exact I|apply H]. }
    specialize (Hw Hbody fuel l s I).
    destruct (while fuel tags_cond tags_body l s) as [[l'| e |] s'];
      cbn [outcome fst] in Hw |- *; [discriminate|discriminate|lia].
  - intros l s. apply tags_loop_overshoot.
Qed.

Lemma C9_termination_witness :
  (List.length sample_file < 43)%nat
  /\ (exists c s', parse_ciff_file 43 (initial sample_file) = (Normal c, s')
                   /\ decode sample_file = Normal c)
  /\ (forall l s, (List.length (ciff_file s) < 43)%nat ->
        fst (while 43 caption_cond caption_body l s) <> OutOfFuel)
  /\ (forall l s, (List.length (ciff_file s) < 43)%nat ->
        fst (while 43 tags_cond tags_body l s) <> OutOfFuel)
  /\ (forall l s, (List.length (ciff_file s) < 43)%nat ->
        header_size (new_ciff s) < bytes_read s ->
        exists e s', while 43 tags_cond tags_body l s = (Raised e, s')).
Proof.
  assert (H : (List.length sample_file < 43)%nat) by (vm_compute; lia).
  split; [exact H|]. exact (C9_termination sample_file 43 H).
Defined.

(** C10. Every tag of an accepted file is nonempty and contains exactly
    one null character, its last one. *)
Theorem C10_tags_of_accepted (stream : list byte) (c : CIFF) :
  decode stream = Normal c -> is_valid c = true ->
  Forall (fun t => t <> ""
                   /\ count_char "000" t = 1%nat
                   /\ last_char t = Some "000"%char)
         (tags c).
Proof.
  intros Hd Hv. destruct (decode_valid _ _ Hd Hv) as (s' & Ha & ->).
  exact (acc_tags _ _ Ha).
Qed.

Lemma C10_tags_of_accepted_witness :
  decode sample_file = Normal sample_ciff
  /\ is_valid sample_ciff = true
  /\ Forall (fun t => t <> ""
                      /\ count_char "000" t = 1%nat
                      /\ last_char t = Some "000"%char)
            (tags sample_ciff).
Proof.
  split; [reflexivity|]. split; [reflexivity|].
  apply (C10_tags_of_accepted sample_file); reflexivity.
Defined.

(** ** Bytes and characters *)

Lemma append_nil_r (s : string) : (s ++ "")%string = s.
Proof. induction s as [|a s IH]; cbn; [reflexivity|now rewrite IH]. Qed.

Lemma append_assoc (s1 s2 s3 : string) :
  ((s1 ++ s2) ++ s3)%string = (s1 ++ (s2 ++ s3))%string.
Proof. induction s1 as [|a s1 IH]; cbn; [reflexivity|now rewrite IH]. Qed.

Lemma join_snoc (ts : list string) (t : string) :
  join (ts ++ [t]) = (join ts ++ t)%string.
Proof.
  induction ts as [|u ts IH]; cbn.
  - apply append_nil_r.
  - unfold join in IH. rewrite IH. symmetry. apply append_assoc.
Qed.

Lemma string_of_list_byte_app (a b : list byte) :
  string_of_list_byte (a ++ b)
  = (string_of_list_byte a ++ string_of_list_byte b)%string.
Proof.
  unfold string_of_list_byte.
  induction a as [|x a IH]; cbn; [reflexivity|now rewrite IH].
Qed.

Lemma decode_from_ascii pos bs s :
  decode_from pos bs = inl s ->
  s = string_of_list_byte bs /\ forallb is_ascii bs = true.
Proof.
  revert pos s. induction bs as [|b bs IH]; intros pos s H; cbn in H.
  - injection H as <-. split; reflexivity.
  - destruct (is_ascii b) eqn:Hb; [|discriminate].
    destruct (decode_from (S pos) bs) as [s'|e] eqn:Hd; [|discriminate].
    injection H as <-. destruct (IH _ _ Hd) as [-> Hall].
    cbn [forallb]. rewrite Hb, Hall. split; reflexivity.
Qed.

Lemma ascii_of_byte_inj (a b : byte) :
  ascii_of_byte a = ascii_of_byte b -> a = b.
Proof.
  intros H. apply (f_equal byte_of_ascii) in H.
  now rewrite !byte_of_ascii_of_byte in H.
Qed.

(** The character read is a newline (a null) exactly when the byte is. *)
Lemma char_is_LF (b : byte) :
  String (ascii_of_byte b) EmptyString = LF <-> b = x0a.
Proof.
  unfold LF. split.
  - intros [= H]. now apply (ascii_of_byte_inj b x0a).
  - now intros ->.
Qed.

Lemma char_is_NUL (b : byte) :
  String (ascii_of_byte b) EmptyString = NUL <-> b = x00.
Proof.
  unfold NUL. split.
  - intros [= H]. now apply (ascii_of_byte_inj b x00).
  - now intros ->.
Qed.

Lemma forallb_snoc {X} (f : X -> bool) (l : list X) (x : X) :
  forallb f l = true -> f x = true -> forallb f (l ++ [x]) = true.
Proof. intros Hl Hx. rewrite forallb_app, Hl. cbn. now rewrite Hx. Qed.

Lemma not_in_snoc {X} (a x : X) (l : list X) :
  ~ In a l -> x <> a -> ~ In a (l ++ [x]).
Proof.
  intros Hl Hx Hin. apply in_app_or in Hin as [Hin|[Hin|[]]]; auto.
Qed.

Lemma pixels_of_app (a b : list byte) (k : nat) :
  List.length a = (3 * k)%nat ->
  pixels_of (a ++ b) = pixels_of a ++ pixels_of b.
Proof.
  revert a. induction k as [|k IH]; intros a Hlen.
  - destruct a; [reflexivity|discriminate].
  - destruct a as [|r [|g [|c a]]]; try (cbn in Hlen; lia).
    cbn [pixels_of app]. rewrite (IH a) by (cbn in Hlen; lia).
    reflexivity.
Qed.

Lemma length_pixels_of (a : list byte) (k : nat) :
  List.length a = (3 * k)%nat -> List.length (pixels_of a) = k.
Proof.
  revert a. induction k as [|k IH]; intros a Hlen.
  - destruct a; [reflexivity|discriminate].
  - destruct a as [|r [|g [|c a]]]; try (cbn in Hlen; lia).
    cbn [pixels_of List.length]. rewrite (IH a) by (cbn in Hlen; lia).
    reflexivity.
Qed.

(** ** What the blocks read, byte for byte *)

Ltac name_decode H :=
  match goal with Hd : decode_from _ _ = inl _ |- _ => rename Hd into H end.
Ltac name_length H :=
  match goal with
  | Hl : List.length (firstn _ _) = _ |- _ => rename Hl into H
  end.

Lemma outcome_then {A B} (m : M A) (k : A -> M B) (s : state)
    (PN : A -> state -> Prop) (QN : B -> state -> Prop) :
  outcome (m s) PN anything True ->
  (forall a s1, PN a s1 -> outcome (k a s1) QN anything True) ->
  outcome (bind m k s) QN anything True.
Proof.
  intros Hm Hk. unfold bind.
  destruct (m s) as [[a| e |] s1]; cbn [outcome] in Hm |- *; auto.
Qed.

Lemma outcome_normal {A} (r : res A * state) (QN : A -> state -> Prop)
    (QR : string -> state -> Prop) (QF : Prop) :
  outcome r QN QR QF -> outcome r QN anything True.
Proof. destruct r as [[a| e |] s]; cbn; auto; intros; exact I. Qed.

Lemma read_magic_layout s :
  outcome (read_magic s)
    (fun _ s' => reads s s' [x43; x49; x46; x46]
                 /\ new_ciff s' = with_magic "CIFF" (new_ciff s))
    anything True.
Proof.
  unfold read_magic. mstep.
  split_on (List.length (firstn 4 (ciff_file s)) =? 4)%nat; [|exact I].
  split_on (decode_from 0 (firstn 4 (ciff_file s))); [|exact I].
  name_length Hlen. name_decode Hdec. cbn [magic with_magic].
  split_on (s0 =? "CIFF")%string; [|exact I]. subst s0.
  split; [|reflexivity].
  apply decode_from_ascii in Hdec as [Hs _].
  apply (f_equal list_byte_of_string) in Hs.
  rewrite list_byte_of_string_of_list_byte in Hs. cbn in Hs.
  rewrite Hs. now apply (reads_step 4).
Qed.

Lemma caption_body_layout s0 l s :
  caption_layout s0 l s -> caption_cond l s = true ->
  outcome (caption_body l s)
    (fun l' s' =>
       caption_layout s0 l' s'
       /\ (List.length (ciff_file s') < List.length (ciff_file s))%nat)
    anything False.
Proof.
  intros (capb & b & Hr & Hc & Hcap & Hch & Hasc & Hnl) Hcond.
  unfold caption_cond in Hcond. apply negb_true_iff in Hcond.
  reflect_tests. rewrite Hch, char_is_LF in Hcond.
  unfold caption_body. mstep.
  split_on (List.length (firstn 1 (ciff_file s)) =? 1)%nat; [|exact I].
  split_on (decode_from 0 (firstn 1 (ciff_file s))); [|exact I].
  name_length Hlen. name_decode Hdec.
  split; [|now apply shorter_after_read].
  destruct (one_byte _ Hlen) as [b' Hb'].
  rewrite Hb' in Hdec. apply decode_from_ascii in Hdec as [-> Hasc'].
  cbn [forallb] in Hasc'. rewrite andb_true_r in Hasc'.
  exists (capb ++ [b]), b'. split.
  { eapply reads_trans; [exact Hr|]. rewrite <- Hb'.
    now apply (reads_step 1). }
  split; [assumption|]. cbn [fst snd]. split.
  { rewrite Hcap, Hch, string_of_list_byte_app. reflexivity. }
  split; [reflexivity|]. split.
  - now apply forallb_snoc.
  - now apply not_in_snoc.
Qed.

Lemma read_caption_layout fuel s :
  outcome (read_caption fuel s)
    (fun _ s' => exists capb, reads s s' (capb ++ [x0a])
                 /\ new_ciff s'
                    = with_caption (string_of_list_byte capb) (new_ciff s)
                 /\ forallb is_ascii capb = true
                 /\ ~ In x0a capb)
    anything True.
Proof.
  unfold read_caption. mstep.
  split_on (List.length (firstn 1 (ciff_file s)) =? 1)%nat; [|exact I].
  split_on (decode_from 0 (firstn 1 (ciff_file s))); [|exact I].
  name_length Hlen. name_decode Hdec.
  destruct (one_byte _ Hlen) as [b Hb].
  rewrite Hb in Hdec. apply decode_from_ascii in Hdec as [-> Hasc].
  set (s1 := mkState (skipn 1 (ciff_file s)) (bytes_read s + 1) (new_ciff s)).
  assert (H1 : caption_layout s ("", string_of_list_byte [b]) s1).
  { exists [], b. split.
    { cbn [app]. rewrite <- Hb. now apply (reads_step 1). }
    split; [reflexivity|]. split; [reflexivity|]. split; [reflexivity|].
    split; [assumption|]. intros []. }
  pose proof (while_rule caption_cond caption_body (caption_layout s)
                anything (caption_body_layout s) fuel _ _ H1) as Hw.
  destruct (while fuel caption_cond caption_body
              ("", string_of_list_byte [b]) s1)
    as [[[cap ch]| e |] s2]; cbn [outcome] in Hw |- *; try exact I.
  destruct Hw as [(capb & b' & Hr & Hc & Hcap & Hch & Hasc' & Hnl) Hexit].
  cbn [fst snd] in *. unfold caption_cond in Hexit.
  apply negb_false_iff in Hexit. cbn [snd] in Hexit. reflect_tests.
  rewrite Hch, char_is_LF in Hexit. subst b'.
  exists capb. split; [assumption|]. split; [now rewrite Hc, Hcap|].
  split; [|assumption].
  rewrite forallb_app in Hasc'. now apply andb_true_iff in Hasc' as [? _].
Qed.

Lemma string_of_one_byte (b : byte) :
  string_of_list_byte [b] = String (ascii_of_byte b) EmptyString.
Proof. reflexivity. Qed.

Lemma null_ended_snoc (bs : list byte) (b : byte) :
  null_ended (bs ++ [b]) -> b = x00.
Proof.
  intros [H|[pre H]].
  - now destruct bs.
  - now apply app_inj_tail in H as [_ ->].
Qed.

Lemma tags_body_layout s0 l s :
  tags_layout s0 l s -> tags_cond l s = true ->
  outcome (tags_body l s)
    (fun l' s' =>
       tags_layout s0 l' s'
       /\ (List.length (ciff_file s') < List.length (ciff_file s))%nat)
    anything False.
Proof.
  intros (tagb & Hr & Hc & Hjoin & Hasc & Hnl & Hempty & Hend) _.
  unfold tags_body. mstep.
  split_on (List.length (firstn 1 (ciff_file s)) =? 1)%nat; [|exact I].
  split_on (decode_from 0 (firstn 1 (ciff_file s))); [|exact I].
  name_length Hlen. name_decode Hdec.
  destruct (one_byte _ Hlen) as [b Hb].
  assert (Hr' : reads s0
            (mkState (skipn 1 (ciff_file s)) (bytes_read s + 1) (new_ciff s))
            (tagb ++ [b])).
  { eapply reads_trans; [exact Hr|]. rewrite <- Hb.
    now apply (reads_step 1). }
  rewrite Hb in Hdec. apply decode_from_ascii in Hdec as [-> Hasc'].
  cbn [forallb] in Hasc'. rewrite andb_true_r in Hasc'.
  rewrite string_of_one_byte.
  split_on (String (ascii_of_byte b) "" =? LF)%string; [exact I|].
  assert (Hb_nl : b <> x0a)
    by (intros ->; match goal with H : _ <> LF |- _ => now apply H end).
  split_on (bytes_read s + 1 =? header_size (new_ciff s));
    split_on (String (ascii_of_byte b) "" =? NUL)%string;
    try exact I;
    (split; [|now apply shorter_after_read]);
    exists (tagb ++ [b]);
    (split; [exact Hr'|]); (split; [exact Hc|]); cbn [fst snd];
    rewrite string_of_list_byte_app, string_of_one_byte;
    (split; [|split; [now apply forallb_snoc
                     |split; [now apply not_in_snoc|]]]).
  - rewrite append_nil_r, join_snoc, <- append_assoc, Hjoin. reflexivity.
  - split; [reflexivity|]. intros _. right. exists tagb.
    match goal with H : _ = NUL |- _ => apply char_is_NUL in H; now rewrite H end.
  - rewrite append_nil_r, join_snoc, <- append_assoc, Hjoin. reflexivity.
  - split; [reflexivity|]. intros _. right. exists tagb.
    match goal with H : _ = NUL |- _ => apply char_is_NUL in H; now rewrite H end.
  - rewrite <- append_assoc, Hjoin. reflexivity.
  - split.
    + intros Hn. apply null_ended_snoc in Hn. subst b.
      match goal with H : _ <> NUL |- _ => now contradiction H end.
    + intros Heq. cbn [bytes_read new_ciff] in Heq. contradiction.
Qed.

Lemma read_tags_layout fuel s :
  outcome (read_tags fuel s)
    (fun _ s' => exists tagb tgs, reads s s' tagb
                 /\ new_ciff s' = with_tags tgs (new_ciff s)
                 /\ join tgs = string_of_list_byte tagb
                 /\ forallb is_ascii tagb = true
                 /\ ~ In x0a tagb
                 /\ null_ended tagb
                 /\ bytes_read s' = header_size (new_ciff s))
    anything True.
Proof.
  unfold read_tags, bind.
  assert (H0 : tags_layout s ([], "") s).
  { exists []. split; [apply reads_nil|]. split; [reflexivity|].
    split; [reflexivity|]. split; [reflexivity|]. split; [intros []|].
    split; [reflexivity|]. intros _. now left. }
  pose proof (while_rule tags_cond tags_body (tags_layout s) anything
                (tags_body_layout s) fuel _ _ H0) as Hw.
  destruct (while fuel tags_cond tags_body ([], "") s)
    as [[[tgs tag]| e |] s1]; cbn [outcome] in Hw |- *; try exact I.
  destruct Hw as [(tagb & Hr & Hc & Hjoin & Hasc & Hnl & Hempty & Hend) Hexit].
  cbn [fst snd] in *.
  pose proof (check_tags_spec tgs s1) as Hf.
  destruct (for_each tgs check_tag s1) as [[[]| e |] s2];
    cbn [outcome] in Hf |- *; try exact I.
  subst s2. mstep.
  unfold tags_cond in Hexit. apply negb_false_iff in Hexit. reflect_tests.
  specialize (Hend Hexit). specialize (Hempty Hend). subst tag.
  rewrite append_nil_r in Hjoin.
  exists tagb, tgs. split; [exact Hr|]. split; [now rewrite Hc|].
  repeat (split; [assumption|]). now rewrite <- Hc.
Qed.

Lemma pixels_body_layout s0 l s :
  pixels_layout s0 l s -> pixels_cond l s = true ->
  outcome (pixels_body l s)
    (fun l' s' =>
       pixels_layout s0 l' s'
       /\ (List.length (ciff_file s') < List.length (ciff_file s))%nat)
    anything False.
Proof.
  intros (bs & k & Hr & Hc & Hlen) _.
  unfold pixels_body. mstep.
  split_on (List.length (firstn 3 (ciff_file s)) =? 3)%nat; [|exact I].
  name_length H3.
  destruct (three_bytes _ H3) as (r & g & b & Hrgb).
  assert (Hr' : reads s0
            (mkState (skipn 3 (ciff_file s)) (bytes_read s + 3) (new_ciff s))
            (bs ++ [r; g; b])).
  { eapply reads_trans; [exact Hr|]. rewrite <- Hrgb.
    now apply (reads_step 3). }
  rewrite Hrgb. unfold unpack_BBB. mstep.
  split; [|now apply shorter_after_read].
  exists (bs ++ [r; g; b]), (S k). split.
  { destruct Hr' as [F B]. split; [exact F|exact B]. }
  split.
  - rewrite Hc, with_pixels_snoc, (pixels_of_app bs _ k) by assumption.
    reflexivity.
  - rewrite length_app, Hlen. cbn [List.length]. lia.
Qed.

Lemma read_pixels_layout fuel s :
  outcome (read_pixels fuel s)
    (fun _ s' => exists bs k, reads s s' bs
                 /\ new_ciff s'
                    = with_pixels (pixels (new_ciff s) ++ pixels_of bs)
                                  (new_ciff s)
                 /\ List.length bs = (3 * k)%nat)
    anything True.
Proof.
  unfold read_pixels.
  assert (H0 : pixels_layout s tt s).
  { exists [], O. split; [apply reads_nil|].
    split; [symmetry; apply with_pixels_same|reflexivity]. }
  pose proof (while_rule pixels_cond pixels_body (pixels_layout s) anything
                (pixels_body_layout s) fuel _ _ H0) as Hw.
  destruct (while fuel pixels_cond pixels_body tt s) as [[[]| e |] s1];
    cbn [outcome] in Hw |- *; try exact I.
  now destruct Hw as [Hw _].
Qed.

Ltac then_block lemma :=
  eapply outcome_then; [eapply outcome_normal; apply lemma | ].
Ltac then_layout lemma :=
  eapply outcome_then; [apply lemma | ].

Lemma parse_body_layout fuel stream :
  outcome (parse_body fuel (initial stream))
    (fun _ s' => accepted stream s' -> layout stream (new_ciff s'))
    anything True.
Proof.
  unfold parse_body.
  then_layout read_magic_layout. intros _ s1 (R1 & C1).
  then_block read_header_size_spec. intros _ s2 (b2 & L2 & R2 & C2 & _).
  then_block read_content_size_spec. intros _ s3 (b3 & L3 & R3 & C3).
  then_block read_width_spec. intros _ s4 (b4 & L4 & R4 & C4).
  then_block read_height_spec. intros _ s5 (b5 & L5 & R5 & C5 & _).
  then_layout (read_caption_layout fuel).
  intros _ s6 (capb & R6 & C6 & Acap & Ncap).
  then_layout (read_tags_layout fuel).
  intros _ s7 (tagb & tgs & R7 & C7 & Jtags & Atags & Ntags & Etags & Hhs).
  then_layout (read_pixels_layout fuel).
  intros _ s8 (pxb & k & R8 & C8 & Lpx).
  pose proof (check_eof_spec s8) as He.
  destruct (check_eof s8) as [[[]| e |] s9]; cbn [outcome] in He |- *;
    try exact I.
  destruct He as (F8 & F9 & B9 & C9). intros Hacc.
  pose proof (reads_trans _ _ _ _ _ R1 R2) as R12.
  pose proof (reads_trans _ _ _ _ _ R12 R3) as R13.
  pose proof (reads_trans _ _ _ _ _ R13 R4) as R14.
  pose proof (reads_trans _ _ _ _ _ R14 R5) as R15.
  pose proof (reads_trans _ _ _ _ _ R15 R6) as R16.
  pose proof (reads_trans _ _ _ _ _ R16 R7) as R17.
  pose proof (reads_trans _ _ _ _ _ R17 R8) as R18.
  assert (Hc9 : new_ciff s9
                = mkCIFF "CIFF" (le_uint b2) (le_uint b3) (le_uint b4)
                         (le_uint b5) (string_of_list_byte capb) tgs
                         (pixels_of pxb) true "").
  { rewrite C9, C8, C7, C6, C5, C4, C3, C2, C1. reflexivity. }
  assert (Hc6 : header_size (new_ciff s6) = le_uint b2).
  { rewrite C6, C5, C4, C3, C2, C1. reflexivity. }
  destruct R17 as [_ B17]. destruct R18 as [Hstream B18].
  rewrite F8, app_nil_r in Hstream.
  cbn [initial ciff_file bytes_read] in Hstream, B17, B18.
  pose proof (acc_total _ _ Hacc) as Htot. rewrite Hc9 in Htot.
  cbn [header_size content_size] in Htot.
  rewrite Hhs, Hc6 in B17.
  exists b2, b3, b4, b5, capb, tagb, pxb. rewrite Hc9.
  cbn [magic header_size content_size width height caption tags pixels].
  split.
  { rewrite Hstream, <- !app_assoc. reflexivity. }
  repeat (split; [first [assumption | reflexivity]|]).
  split.
  { rewrite B17, !length_app, L2, L3, L4, L5. cbn [List.length]. lia. }
  split.
  { rewrite Hstream, B17 in Htot.
    rewrite !length_app, L2, L3, L4, L5 in Htot. cbn [List.length] in Htot.
    lia. }
  repeat (split; [first [assumption | reflexivity]|]).
  reflexivity.
Qed.

(** An accepted file is laid out as the format prescribes, and every part
    of the object is read off its part of the file. *)
Lemma decode_layout (stream : list byte) (c : CIFF) :
  decode stream = Normal c -> is_valid c = true -> layout stream c.
Proof.
  intros Hd Hv.
  pose proof (parse_body_layout (fuel_for stream) stream) as Hl.
  destruct (parse_ciff_file_outcome (fuel_for stream) stream)
    as [(s' & Hb & Ha & Hp)|(e & s' & _ & _ & Hp)];
    [unfold fuel_for; lia| |];
    unfold decode in Hd; rewrite Hp in Hd; injection Hd as <-;
    [|discriminate].
  rewrite Hb in Hl. exact (Hl Ha).
Qed.

(** ** Consequences of the layout *)

Lemma byte_val_bound (b : byte) : 0 <= byte_val b <= 255.
Proof.
  unfold byte_val. pose proof (Byte.to_N_bounded b). lia.
Qed.

Lemma le_uint_bound (bs : list byte) :
  le_uint bs < 256 ^ Z.of_nat (List.length bs).
Proof.
  induction bs as [|b bs IH]; cbn [le_uint List.length]; [reflexivity|].
  rewrite Nat2Z.inj_succ, Z.pow_succ_r by lia.
  pose proof (byte_val_bound b). lia.
Qed.

Lemma le_uint_fits (bs : list byte) :
  List.length bs = 8%nat -> 0 <= le_uint bs <= max_uint64.
Proof.
  intros H. pose proof (le_uint_bound bs) as Hb. rewrite H in Hb.
  pose proof (le_uint_nonneg bs). unfold max_uint64.
  change (256 ^ Z.of_nat 8) with 18446744073709551616 in Hb. lia.
Qed.

Lemma length_string_of_list_byte (bs : list byte) :
  String.length (string_of_list_byte bs) = List.length bs.
Proof.
  unfold string_of_list_byte.
  induction bs as [|b bs IH]; cbn; [reflexivity|now rewrite IH].
Qed.

Lemma skipn_fixed_fields (m hsb csb wb hb rest : list byte) :
  List.length m = 4%nat ->
  List.length hsb = 8%nat -> List.length csb = 8%nat ->
  List.length wb = 8%nat -> List.length hb = 8%nat ->
  skipn 36 (m ++ hsb ++ csb ++ wb ++ hb ++ rest) = rest.
Proof.
  intros Lm L1 L2 L3 L4.
  replace (m ++ hsb ++ csb ++ wb ++ hb ++ rest)
    with ((m ++ hsb ++ csb ++ wb ++ hb) ++ rest)
    by (rewrite <- !app_assoc; reflexivity).
  apply skipn_exact. rewrite !length_app. lia.
Qed.

Lemma pixels_of_channels (bs : list byte) : Forall channel_ok (pixels_of bs).
Proof.
  assert (H : forall n bs, (List.length bs <= n)%nat ->
                           Forall channel_ok (pixels_of bs)).
  { induction n as [|n IH]; intros l Hl.
    - destruct l; [constructor|cbn in Hl; lia].
    - destruct l as [|r [|g [|b l]]]; try constructor.
      + cbn. repeat split; apply byte_val_bound.
      + apply IH. cbn in Hl. lia. }
  exact (H _ bs (Nat.le_refl _)).
Qed.

(** The parts of an accepted file after its 36 bytes of fixed fields. *)
Lemma layout_after_fields (stream : list byte) (c : CIFF) :
  layout stream c ->
  exists capb tagb pxb,
    skipn 36 stream = capb ++ [x0a] ++ tagb ++ pxb
    /\ header_size c
       = Z.of_nat (36 + List.length capb + 1 + List.length tagb)
    /\ caption c = string_of_list_byte capb
    /\ forallb is_ascii capb = true /\ ~ In x0a capb
    /\ join (tags c) = string_of_list_byte tagb
    /\ forallb is_ascii tagb = true /\ ~ In x0a tagb
    /\ null_ended tagb
    /\ pixels c = pixels_of pxb
    /\ (36 <= List.length stream)%nat.
Proof.
  intros (hsb & csb & wb & hb & capb & tagb & pxb & Hs & L1 & L2 & L3 & L4
          & _ & _ & _ & _ & Hhs & _ & Hcap & Acap & Ncap & Htags & Atags
          & Ntags & Etags & Hpx).
  exists capb, tagb, pxb.
  split; [rewrite Hs; now apply skipn_fixed_fields|].
  repeat (split; [assumption|]).
  rewrite Hs, !length_app, L1, L2, L3, L4. cbn [List.length]. lia.
Qed.

Lemma skipn_skipn_add {X} (a b : nat) (l : list X) :
  skipn a (skipn b l) = skipn (b + a) l.
Proof.
  revert l. induction b as [|b IH]; intros l; [reflexivity|].
  destruct l as [|x l]; [now rewrite !skipn_nil|]. cbn. apply IH.
Qed.

(** ** Further properties of accepted files *)

Lemma under_38_bytes_rejected (stream : list byte) :
  (List.length stream < 38)%nat ->
  exists c, decode stream = Normal c /\ is_valid c = false.
Proof.
  intros Hlen.
  destruct (decode_outcome stream) as [(s' & Ha & Hs)|(e & s' & _ & _ & Hs)].
  - apply accepted_length in Ha as [_ Hlong]. lia.
  - exists (rejected e s'). split; [assumption|reflexivity].
Qed.

(** X4. No file shorter than 38 bytes is accepted. *)
Theorem X4_short_files_rejected (stream : list byte) :
  (List.length stream < 38)%nat ->
  exists c, decode stream = Normal c /\ is_valid c = false.
Proof. apply under_38_bytes_rejected. Qed.

Lemma X4_short_files_rejected_witness :
  (List.length (firstn 37 sample_file) < 38)%nat
  /\ exists c, decode (firstn 37 sample_file) = Normal c
               /\ is_valid c = false.
Proof.
  assert (H : (List.length (firstn 37 sample_file) < 38)%nat)
    by (vm_compute; lia).
  split; [exact H|]. exact (X4_short_files_rejected _ H).
Defined.

(** X5. The four size fields of an accepted file are unsigned 64-bit
    values, and width * height * 3 is computed without wrapping: the
    product itself fits in 64 bits. *)
Theorem X5_sizes_fit_64_bits (stream : list byte) (c : CIFF) :
  decode stream = Normal c -> is_valid c = true ->
  38 <= header_size c <= max_uint64
  /\ 0 <= content_size c <= max_uint64
  /\ 0 <= width c <= max_uint64
  /\ 0 <= height c <= max_uint64
  /\ width c * height c * 3 <= max_uint64.
Proof.
  intros Hd Hv.
  destruct (decode_valid _ _ Hd Hv) as (s' & Ha & Hc).
  destruct (decode_layout _ _ Hd Hv)
    as (hsb & csb & wb & hb & _ & _ & _ & _ & L1 & L2 & L3 & L4
        & Hhs & Hcs & Hw & Hh & _).
  pose proof (le_uint_fits _ L1). pose proof (le_uint_fits _ L2).
  pose proof (le_uint_fits _ L3). pose proof (le_uint_fits _ L4).
  pose proof (acc_min _ _ Ha) as Hmin.
  pose proof (acc_identity _ _ Ha) as Hid. rewrite <- Hc in Hmin, Hid.
  rewrite <- Hid. rewrite Hhs in *. rewrite Hcs, Hw, Hh. lia.
Qed.

Lemma X5_sizes_fit_64_bits_witness :
  decode sample_file = Normal sample_ciff
  /\ is_valid sample_ciff = true
  /\ 38 <= header_size sample_ciff <= max_uint64
  /\ 0 <= content_size sample_ciff <= max_uint64
  /\ 0 <= width sample_ciff <= max_uint64
  /\ 0 <= height sample_ciff <= max_uint64
  /\ width sample_ciff * height sample_ciff * 3 <= max_uint64.
Proof.
  split; [reflexivity|]. split; [reflexivity|].
  apply (X5_sizes_fit_64_bits sample_file); reflexivity.
Defined.

(** X6. The caption of an accepted file is the ASCII decoding of the
    bytes from offset 36 up to the first newline byte, which is left
    out. *)
Theorem X6_caption_is_first_line (stream : list byte) (c : CIFF) :
  decode stream = Normal c -> is_valid c = true ->
  exists capb rest,
    skipn 36 stream = capb ++ x0a :: rest
    /\ ~ In x0a capb
    /\ forallb is_ascii capb = true
    /\ caption c = string_of_list_byte capb.
Proof.
  intros Hd Hv.
  destruct (layout_after_fields _ _ (decode_layout _ _ Hd Hv))
    as (capb & tagb & pxb & Hs & _ & Hcap & Acap & Ncap & _).
  exists capb, (tagb ++ pxb). auto.
Qed.

Lemma X6_caption_is_first_line_witness :
  decode null_caption_file = Normal null_caption_ciff
  /\ is_valid null_caption_ciff = true
  /\ exists capb rest,
       skipn 36 null_caption_file = capb ++ x0a :: rest
       /\ ~ In x0a capb
       /\ forallb is_ascii capb = true
       /\ caption null_caption_ciff = string_of_list_byte capb.
Proof.
  split; [reflexivity|]. split; [reflexivity|].
  apply (X6_caption_is_first_line null_caption_file); reflexivity.
Defined.

(** X7. In an accepted file the caption and its newline end within the
    declared header, and the tags written one after the other are the
    ASCII decoding of the bytes between that newline and offset
    [header_size]; none of these bytes is a newline. *)
Theorem X7_tags_fill_the_header (stream : list byte) (c : CIFF) :
  decode stream = Normal c -> is_valid c = true ->
  let start := (37 + String.length (caption c))%nat in
  let region :=
    firstn (Z.to_nat (header_size c) - start) (skipn start stream) in
  Z.of_nat start <= header_size c
  /\ join (tags c) = string_of_list_byte region
  /\ forallb is_ascii region = true
  /\ ~ In x0a region.
Proof.
  intros Hd Hv start region.
  destruct (layout_after_fields _ _ (decode_layout _ _ Hd Hv))
    as (capb & tagb & pxb & Hs & Hhs & Hcap & _ & _ & Htags & Atags
        & Ntags & _).
  assert (Hstart : start = (36 + (List.length capb + 1))%nat).
  { unfold start. rewrite Hcap, length_string_of_list_byte. lia. }
  assert (Hregion : region = tagb).
  { unfold region. rewrite Hstart, <- skipn_skipn_add, Hs.
    replace (capb ++ [x0a] ++ tagb ++ pxb)
      with ((capb ++ [x0a]) ++ tagb ++ pxb)
      by (rewrite <- app_assoc; reflexivity).
    rewrite skipn_exact by (rewrite length_app; reflexivity).
    rewrite firstn_exact; [reflexivity|]. rewrite Hhs. lia. }
  rewrite Hregion. split; [rewrite Hhs, Hstart; lia|]. auto.
Qed.

Lemma X7_tags_fill_the_header_witness :
  decode sample_file = Normal sample_ciff
  /\ is_valid sample_ciff = true
  /\ Z.of_nat 37 <= header_size sample_ciff
  /\ join (tags sample_ciff)
     = string_of_list_byte (firstn 2 (skipn 37 sample_file))
  /\ forallb is_ascii (firstn 2 (skipn 37 sample_file)) = true
  /\ ~ In x0a (firstn 2 (skipn 37 sample_file)).
Proof.
  split; [reflexivity|]. split; [reflexivity|].
  apply (X7_tags_fill_the_header sample_file sample_ciff); reflexivity.
Defined.

Lemma join_nonempty_tags (ts : list string) :
  Forall tag_ok ts -> join ts = "" -> ts = [].
Proof.
  intros Hok Hj. destruct ts as [|t ts]; [reflexivity|].
  inversion Hok as [|? ? [Hne _] _]. subst. cbn in Hj.
  destruct t; [now contradiction Hne|discriminate].
Qed.

Lemma string_of_list_byte_nil (bs : list byte) :
  string_of_list_byte bs = "" -> bs = [].
Proof. destruct bs; [reflexivity|discriminate]. Qed.

Lemma nth_error_at {X} (A B : list X) (x : X) (n : nat) :
  n = List.length A -> nth_error (A ++ x :: B) n = Some x.
Proof.
  intros ->. rewrite nth_error_app2 by lia. now rewrite Nat.sub_diag.
Qed.

(** X8. In an accepted file the last byte of the header is a null byte,
    unless the file has no tag at all and its header ends with the
    caption's newline. *)
Theorem X8_header_ends_with_null_or_has_no_tag
    (stream : list byte) (c : CIFF) :
  decode stream = Normal c -> is_valid c = true ->
  nth_error stream (Z.to_nat (header_size c) - 1) = Some x00
  \/ (tags c = []
      /\ header_size c = Z.of_nat (37 + String.length (caption c))
      /\ nth_error stream (Z.to_nat (header_size c) - 1) = Some x0a).
Proof.
  intros Hd Hv.
  destruct (decode_valid _ _ Hd Hv) as (s' & Ha & Hc).
  pose proof (acc_tags _ _ Ha) as Hok. rewrite <- Hc in Hok.
  destruct (layout_after_fields _ _ (decode_layout _ _ Hd Hv))
    as (capb & tagb & pxb & Hs & Hhs & Hcap & _ & _ & Htags & _ & _
        & Hend & _ & Hlong).
  assert (Hstream : stream = firstn 36 stream ++ capb ++ [x0a] ++ tagb ++ pxb).
  { rewrite <- Hs. symmetry. apply firstn_skipn. }
  assert (L36 : List.length (firstn 36 stream) = 36%nat)
    by (rewrite length_firstn; lia).
  destruct Hend as [->|[pre ->]].
  - right. cbn in Htags. split; [now apply join_nonempty_tags|].
    split;
      [rewrite Hhs, Hcap, length_string_of_list_byte; cbn [List.length]; lia|].
    rewrite Hstream, Hhs.
    replace (firstn 36 stream ++ capb ++ [x0a] ++ [] ++ pxb)
      with ((firstn 36 stream ++ capb) ++ x0a :: pxb)
      by (rewrite <- !app_assoc; reflexivity).
    apply nth_error_at. rewrite length_app, L36. cbn [List.length]. lia.
  - left. rewrite Hstream, Hhs.
    replace (firstn 36 stream ++ capb ++ [x0a] ++ (pre ++ [x00]) ++ pxb)
      with ((firstn 36 stream ++ capb ++ [x0a] ++ pre) ++ x00 :: pxb)
      by (rewrite <- !app_assoc; reflexivity).
    apply nth_error_at. rewrite !length_app, L36. cbn [List.length]. lia.
Qed.

Lemma X8_header_ends_with_null_or_has_no_tag_witness :
  decode sample_file = Normal sample_ciff
  /\ is_valid sample_ciff = true
  /\ (nth_error sample_file (Z.to_nat (header_size sample_ciff) - 1)
      = Some x00
      \/ (tags sample_ciff = []
          /\ header_size sample_ciff
             = Z.of_nat (37 + String.length (caption sample_ciff))
          /\ nth_error sample_file (Z.to_nat (header_size sample_ciff) - 1)
             = Some x0a)).
Proof.
  split; [reflexivity|]. split; [reflexivity|].
  apply (X8_header_ends_with_null_or_has_no_tag sample_file); reflexivity.
Defined.

(** X9. The pixels of an accepted file are the bytes from offset
    [header_size] to the end of the file, three at a time and in order;
    there are [content_size] such bytes, and every channel is a byte
    value. *)
Theorem X9_pixels_are_the_content (stream : list byte) (c : CIFF) :
  decode stream = Normal c -> is_valid c = true ->
  let content := skipn (Z.to_nat (header_size c)) stream in
  pixels c = pixels_of content
  /\ Z.of_nat (List.length content) = content_size c
  /\ Forall channel_ok (pixels c).
Proof.
  intros Hd Hv content.
  destruct (decode_layout _ _ Hd Hv)
    as (hsb & csb & wb & hb & capb & tagb & pxb & Hs & L1 & L2 & L3 & L4
        & _ & _ & _ & _ & Hhs & Hcs & _ & _ & _ & _ & _ & _ & _ & Hpx).
  assert (Hcontent : content = pxb).
  { unfold content. rewrite Hs, Hhs, Nat2Z.id.
    replace ([x43; x49; x46; x46] ++ hsb ++ csb ++ wb ++ hb
             ++ capb ++ [x0a] ++ tagb ++ pxb)
      with (([x43; x49; x46; x46] ++ hsb ++ csb ++ wb ++ hb
             ++ capb ++ [x0a] ++ tagb) ++ pxb)
      by (rewrite <- !app_assoc; reflexivity).
    apply skipn_exact. rewrite !length_app, L1, L2, L3, L4. cbn. lia. }
  rewrite Hcontent, Hpx. split; [reflexivity|]. split; [now rewrite Hcs|].
  apply pixels_of_channels.
Qed.

Lemma X9_pixels_are_the_content_witness :
  decode sample_file = Normal sample_ciff
  /\ is_valid sample_ciff = true
  /\ pixels sample_ciff = pixels_of (skipn 39 sample_file)
  /\ Z.of_nat (List.length (skipn 39 sample_file)) = content_size sample_ciff
  /\ Forall channel_ok (pixels sample_ciff).
Proof.
  split; [reflexivity|]. split; [reflexivity|].
  apply (X9_pixels_are_the_content sample_file sample_ciff); reflexivity.
Defined.

(** X10. No accepted file is a proper prefix of another one: every proper
    prefix of an accepted file is rejected, and so is an accepted file
    followed by any further bytes. *)
Theorem X10_prefixes_and_extensions_rejected (stream : list byte) (c : CIFF) :
  decode stream = Normal c -> is_valid c = true ->
  (forall n, (n < List.length stream)%nat ->
     exists c', decode (firstn n stream) = Normal c' /\ is_valid c' = false)
  /\ (forall extra, extra <> [] ->
        exists c', decode (stream ++ extra) = Normal c'
                   /\ is_valid c' = false).
Proof.
  intros Hd Hv. destruct (decode_valid _ _ Hd Hv) as (s' & Ha & _).
  pose proof (accepted_length _ _ Ha) as [_ Hlong]. split.
  - intros n Hn.
    destruct (Nat.lt_ge_cases n 38) as [Hsmall|Hbig].
    + apply under_38_bytes_rejected. rewrite length_firstn. lia.
    + apply (other_length_rejected stream _ s' Ha).
      * apply field_at_firstn. lia.
      * apply field_at_firstn. lia.
      * rewrite length_firstn. lia.
  - intros extra Hne. apply (other_length_rejected stream _ s' Ha).
    + apply field_at_app. lia.
    + apply field_at_app. lia.
    + rewrite length_app. destruct extra; [contradiction|cbn; lia].
Qed.

Lemma X10_prefixes_and_extensions_rejected_witness :
  decode sample_file = Normal sample_ciff
  /\ is_valid sample_ciff = true
  /\ (forall n, (n < List.length sample_file)%nat ->
        exists c', decode (firstn n sample_file) = Normal c'
                   /\ is_valid c' = false)
  /\ (forall extra, extra <> [] ->
        exists c', decode (sample_file ++ extra) = Normal c'
                   /\ is_valid c' = false).
Proof.
  split; [reflexivity|]. split; [reflexivity|].
  apply (X10_prefixes_and_extensions_rejected sample_file sample_ciff);
    reflexivity.
Defined.

(** ** Files that fail in the fixed fields *)

Lemma short_read (n : nat) (file : list byte) :
  (List.length file < n)%nat ->
  (List.length (firstn n file) =? n)%nat = false /\ skipn n file = [].
Proof.
  intros H. split.
  - apply Nat.eqb_neq. rewrite length_firstn. lia.
  - apply skipn_all2. lia.
Qed.

Ltac at_short_read H :=
  mstep; destruct (short_read _ _ H) as [-> ->]; cbn [negb]; mstep;
  reflexivity.

Lemma read_magic_short (file : list byte) (br : Z) (c : CIFF) :
  (List.length file < 4)%nat ->
  read_magic (mkState file br c)
  = (Raised "Couldn't read 4 magic bytes", mkState [] br c).
Proof. intros H. unfold read_magic. at_short_read H. Qed.

Lemma read_header_size_short (file : list byte) (br : Z) (c : CIFF) :
  (List.length file < 8)%nat ->
  read_header_size (mkState file br c)
  = (Raised "Invalid image format: header size", mkState [] br c).
Proof. intros H. unfold read_header_size. at_short_read H. Qed.

Lemma read_content_size_short (file : list byte) (br : Z) (c : CIFF) :
  (List.length file < 8)%nat ->
  read_content_size (mkState file br c)
  = (Raised "Invalid image format: content size", mkState [] br c).
Proof. intros H. unfold read_content_size. at_short_read H. Qed.

Lemma read_width_short (file : list byte) (br : Z) (c : CIFF) :
  (List.length file < 8)%nat ->
  read_width (mkState file br c)
  = (Raised "Invalid image format: width", mkState [] br c).
Proof. intros H. unfold read_width. at_short_read H. Qed.

Lemma read_height_short (file : list byte) (br : Z) (c : CIFF) :
  (List.length file < 8)%nat ->
  read_height (mkState file br c)
  = (Raised "Invalid image format: height", mkState [] br c).
Proof. intros H. unfold read_height. at_short_read H. Qed.

Lemma read_header_size_small (bs rest : list byte) (br : Z) (c : CIFF) :
  List.length bs = 8%nat -> le_uint bs < 38 ->
  read_header_size (mkState (bs ++ rest) br c)
  = (Raised "Invalid image format: header size",
     mkState rest (br + 8) (with_header_size (le_uint bs) c)).
Proof.
  intros Hlen Hmin. unfold read_header_size. at_prefix.
  cbn [header_size with_header_size].
  apply Z.ltb_lt in Hmin. now rewrite Hmin.
Qed.

Lemma decode_from_first_bad (pos : nat) (pre post : list byte) (b : byte) :
  forallb is_ascii pre = true -> is_ascii b = false ->
  decode_from pos (pre ++ b :: post)
  = inr (unicode_decode_error b (pos + List.length pre)).
Proof.
  revert pos. induction pre as [|a pre IH]; intros pos Hpre Hb.
  - cbn. rewrite Hb, Nat.add_0_r. reflexivity.
  - cbn [forallb] in Hpre. apply andb_true_iff in Hpre as [Ha Hpre].
    cbn [app decode_from]. rewrite Ha, (IH (S pos) Hpre Hb).
    cbn [List.length]. now rewrite Nat.add_succ_r.
Qed.

Lemma read_magic_not_ascii (pre post rest : list byte) (b : byte)
    (br : Z) (c : CIFF) :
  List.length (pre ++ b :: post) = 4%nat ->
  forallb is_ascii pre = true -> is_ascii b = false ->
  read_magic (mkState ((pre ++ b :: post) ++ rest) br c)
  = (Raised (unicode_decode_error b (List.length pre)),
     mkState rest (br + 4) c).
Proof.
  intros Hlen Hpre Hb. unfold read_magic. at_prefix.
  now rewrite (decode_from_first_bad 0 pre post b Hpre Hb).
Qed.

(** X1. A file of fewer than four bytes, the empty file included, is
    rejected with the message about the magic bytes; what there was is
    read but not counted, and every other field keeps the value the
    constructor gave it. *)
Theorem X1_less_than_four_bytes (fuel : nat) (stream : list byte) :
  (List.length stream < 4)%nat ->
  let c := mkCIFF "CIFF" 0 0 0 0 "" [] [] false
                  "Couldn't read 4 magic bytes" in
  parse_ciff_file fuel (initial stream) = (Normal c, mkState [] 0 c).
Proof.
  intros Hlen c.
  unfold parse_ciff_file, try_except, parse_body, bind, initial.
  rewrite read_magic_short by assumption. reflexivity.
Qed.

Lemma X1_less_than_four_bytes_witness :
  (List.length (@nil byte) < 4)%nat
  /\ parse_ciff_file 0 (initial [])
     = (Normal (mkCIFF "CIFF" 0 0 0 0 "" [] [] false
                       "Couldn't read 4 magic bytes"),
        mkState [] 0 (mkCIFF "CIFF" 0 0 0 0 "" [] [] false
                             "Couldn't read 4 magic bytes")).
Proof.
  assert (H : (List.length (@nil byte) < 4)%nat) by (cbn; lia).
  split; [exact H|]. exact (X1_less_than_four_bytes 0 [] H).
Defined.

(** X2. A file whose first four bytes hold a byte of 0x80 or more is
    rejected with the decoder's message, which names the first such byte
    and its index among the four; the four bytes are counted as read and
    [magic] keeps the value the constructor gave it. *)
Theorem X2_magic_not_ascii
    (fuel : nat) (pre post rest : list byte) (b : byte) :
  List.length (pre ++ b :: post) = 4%nat ->
  forallb is_ascii pre = true -> is_ascii b = false ->
  let c := mkCIFF "CIFF" 0 0 0 0 "" [] [] false
                  (unicode_decode_error b (List.length pre)) in
  parse_ciff_file fuel (initial ((pre ++ b :: post) ++ rest))
  = (Normal c, mkState rest 4 c).
Proof.
  intros Hlen Hpre Hb c.
  unfold parse_ciff_file, try_except, parse_body, bind, initial.
  rewrite read_magic_not_ascii by assumption. reflexivity.
Qed.

Lemma X2_magic_not_ascii_witness :
  parse_ciff_file 0 (initial ([x43; xc9; x46; xff] ++ [x00]))
  = (Normal (mkCIFF "CIFF" 0 0 0 0 "" [] [] false
       "'ascii' codec can't decode byte 0xc9 in position 1: ordinal not in range(128)"),
     mkState [x00] 4
       (mkCIFF "CIFF" 0 0 0 0 "" [] [] false
          "'ascii' codec can't decode byte 0xc9 in position 1: ordinal not in range(128)")).
Proof.
  exact (X2_magic_not_ascii 0 [x43] [x46; xff] [x00] xc9
           eq_refl eq_refl eq_refl).
Defined.

(** X3. After a correct magic, a header size below 38 is rejected with
    the header-size message as soon as it is read: 12 bytes are counted,
    the value read is kept in [header_size], and the fields after it are
    never read. *)
Theorem X3_header_size_below_38
    (fuel : nat) (hs rest : list byte) :
  List.length hs = 8%nat -> le_uint hs < 38 ->
  let c := mkCIFF "CIFF" (le_uint hs) 0 0 0 "" [] [] false
                  "Invalid image format: header size" in
  parse_ciff_file fuel (initial ([x43; x49; x46; x46] ++ hs ++ rest))
  = (Normal c, mkState rest 12 c).
Proof.
  intros Hlen Hsmall c.
  unfold parse_ciff_file, try_except, parse_body, bind, initial.
  rewrite read_magic_run, read_header_size_small by assumption.
  reflexivity.
Qed.

Lemma X3_header_size_below_38_witness :
  le_uint (encode_le 8 37) < 38
  /\ parse_ciff_file 0
       (initial (ciff_bytes 37 3 1 1 [x0a; x0a; x14; x1e]))
     = (Normal (mkCIFF "CIFF" 37 0 0 0 "" [] [] false
                       "Invalid image format: header size"),
        mkState (encode_le 8 3 ++ encode_le 8 1 ++ encode_le 8 1
                 ++ [x0a; x0a; x14; x1e]) 12
          (mkCIFF "CIFF" 37 0 0 0 "" [] [] false
                  "Invalid image format: header size")).
Proof.
  assert (H : le_uint (encode_le 8 37) < 38) by (vm_compute; reflexivity).
  split; [exact H|].
  exact (X3_header_size_below_38 0 (encode_le 8 37)
           (encode_le 8 3 ++ encode_le 8 1 ++ encode_le 8 1
            ++ [x0a; x0a; x14; x1e]) eq_refl H).
Defined.

Lemma split_eight (l : list byte) :
  (8 <= List.length l)%nat ->
  exists a b, l = a ++ b /\ List.length a = 8%nat
              /\ List.length b = (List.length l - 8)%nat.
Proof.
  intros H. exists (firstn 8 l), (skipn 8 l).
  split; [symmetry; apply firstn_skipn|].
  rewrite length_firstn, length_skipn. lia.
Qed.

(** X11. A file with a correct magic and header size that ends before
    offset 36 is rejected at the first field that is cut short, with that
    field's message, and is read to its end. *)
Theorem X11_truncated_fixed_fields
    (fuel : nat) (hs tail : list byte) :
  List.length hs = 8%nat -> 38 <= le_uint hs ->
  (List.length tail < 24)%nat ->
  exists c s',
    parse_ciff_file fuel (initial ([x43; x49; x46; x46] ++ hs ++ tail))
    = (Normal c, s')
    /\ is_valid c = false
    /\ ciff_file s' = []
    /\ error_message c
       = if (List.length tail <? 8)%nat
         then "Invalid image format: content size"
         else if (List.length tail <? 16)%nat
              then "Invalid image format: width"
              else "Invalid image format: height".
Proof.
  intros Lhs Hmin Htail.
  unfold parse_ciff_file, try_except, parse_body, bind, initial.
  rewrite read_magic_run, read_header_size_run by assumption.
  destruct (List.length tail <? 8)%nat eqn:H8.
  { apply Nat.ltb_lt in H8.
    rewrite read_content_size_short by assumption.
    eexists _, _. split; [reflexivity|]. repeat split. }
  apply Nat.ltb_ge in H8.
  destruct (split_eight tail H8) as (cs & tail1 & -> & Lcs & L1).
  rewrite read_content_size_run by assumption.
  rewrite length_app, Lcs in *.
  destruct (8 + List.length tail1 <? 16)%nat eqn:H16.
  { apply Nat.ltb_lt in H16.
    rewrite read_width_short by lia.
    eexists _, _. split; [reflexivity|]. repeat split. }
  apply Nat.ltb_ge in H16.
  destruct (split_eight tail1 ltac:(lia)) as (w & tail2 & -> & Lw & L2).
  rewrite read_width_run by assumption.
  rewrite length_app, Lw in *.
  rewrite read_height_short by lia.
  eexists _, _. split; [reflexivity|]. repeat split.
Qed.

Lemma X11_truncated_fixed_fields_witness :
  38 <= le_uint (encode_le 8 39)
  /\ exists c s',
       parse_ciff_file 0
         (initial ([x43; x49; x46; x46] ++ encode_le 8 39
                   ++ encode_le 8 3 ++ [x01; x00]))
       = (Normal c, s')
       /\ is_valid c = false
       /\ ciff_file s' = []
       /\ error_message c = "Invalid image format: width".
Proof.
  assert (H : 38 <= le_uint (encode_le 8 39)) by (vm_compute; discriminate).
  split; [exact H|].
  exact (X11_truncated_fixed_fields 0 (encode_le 8 39)
           (encode_le 8 3 ++ [x01; x00]) eq_refl H
           ltac:(vm_compute; lia)).
Defined.

(** ** Reading back what was written, and writing back what was read *)

Lemma length_encode_le (n : nat) (v : N) : List.length (encode_le n v) = n.
Proof.
  revert v. induction n as [|n IH]; intros v; cbn [encode_le]; [reflexivity|].
  destruct (Byte.of_N (v mod 256)) as [b|] eqn:E.
  - cbn [List.length]. now rewrite IH.
  - apply Byte.of_N_None_iff in E.
    pose proof (N.mod_lt v 256 ltac:(discriminate)). lia.
Qed.

Lemma encode_le_le_uint (bs : list byte) :
  encode_le (List.length bs) (Z.to_N (le_uint bs)) = bs.
Proof.
  induction bs as [|b bs IH]; [reflexivity|].
  cbn [List.length encode_le le_uint].
  pose proof (byte_val_bound b) as Hb. pose proof (le_uint_nonneg bs) as Hn.
  replace (Z.to_N (byte_val b + 256 * le_uint bs))
    with (Byte.to_N b + Z.to_N (le_uint bs) * 256)%N
    by (unfold byte_val in *; lia).
  rewrite N.Div0.mod_add, N.div_add by discriminate.
  assert (Hlt : (Byte.to_N b < 256)%N)
    by (pose proof (Byte.to_N_bounded b); lia).
  rewrite N.mod_small, N.div_small by assumption.
  rewrite Byte.of_to_N. cbn [N.add]. now rewrite IH.
Qed.

Lemma le_uint_encode_le (n : nat) (v : N) :
  (v < 256 ^ N.of_nat n)%N -> le_uint (encode_le n v) = Z.of_N v.
Proof.
  revert v. induction n as [|n IH]; intros v Hv.
  - cbn in Hv |- *. lia.
  - cbn [encode_le].
    destruct (Byte.of_N (v mod 256)) as [b|] eqn:E.
    2:{ apply Byte.of_N_None_iff in E.
        pose proof (N.mod_lt v 256 ltac:(discriminate)). lia. }
    apply Byte.to_of_N in E. cbn [le_uint]. unfold byte_val. rewrite E.
    rewrite IH.
    + pose proof (N.div_mod v 256 ltac:(discriminate)). lia.
    + rewrite Nat2N.inj_succ, N.pow_succ_r' in Hv.
      apply N.Div0.div_lt_upper_bound. lia.
Qed.

Lemma le_uint_encode_field (v : Z) :
  0 <= v <= max_uint64 -> le_uint (encode_le 8 (Z.to_N v)) = v.
Proof.
  intros Hv. rewrite le_uint_encode_le.
  - lia.
  - unfold max_uint64 in Hv.
    change (256 ^ N.of_nat 8)%N with 18446744073709551616%N. lia.
Qed.

Lemma byte_of_channel_val (b : byte) : byte_of_channel (byte_val b) = b.
Proof.
  unfold byte_of_channel, byte_val. now rewrite N2Z.id, Byte.of_to_N.
Qed.

Lemma byte_val_of_channel (v : Z) :
  0 <= v <= 255 -> byte_val (byte_of_channel v) = v.
Proof.
  intros Hv. unfold byte_of_channel, byte_val.
  destruct (Byte.of_N (Z.to_N v)) as [b|] eqn:E.
  - apply Byte.to_of_N in E. rewrite E. lia.
  - apply Byte.of_N_None_iff in E. lia.
Qed.

Lemma pixel_bytes_of (bs : list byte) (k : nat) :
  List.length bs = (3 * k)%nat -> flat_map pixel_bytes (pixels_of bs) = bs.
Proof.
  revert bs. induction k as [|k IH]; intros bs Hlen.
  - destruct bs; [reflexivity|discriminate].
  - destruct bs as [|r [|g [|b bs]]]; try (cbn in Hlen; lia).
    cbn [pixels_of flat_map pixel_bytes app].
    rewrite !byte_of_channel_val, (IH bs) by (cbn in Hlen; lia).
    reflexivity.
Qed.

(** X12. Nothing is lost in an accepted file: writing the returned object
    back in the CIFF layout gives the file that was read, byte for byte.
    Hence two accepted files with the same object are the same file. *)
Theorem X12_encode_after_decode (stream : list byte) (c : CIFF) :
  decode stream = Normal c -> is_valid c = true ->
  ciff_encode c = stream
  /\ (forall other, decode other = Normal c -> other = stream).
Proof.
  intros Hd Hv.
  assert (Hback : forall other, decode other = Normal c ->
                                ciff_encode c = other).
  { clear stream Hd. intros stream Hd.
    destruct (decode_valid _ _ Hd Hv) as (s' & Ha & Hc).
    pose proof (acc_magic _ _ Ha) as Hm.
    pose proof (acc_identity _ _ Ha) as Hid.
    rewrite <- Hc in Hm, Hid.
    destruct (decode_layout _ _ Hd Hv)
      as (hsb & csb & wb & hb & capb & tagb & pxb & Hs & L1 & L2 & L3 & L4
          & Hhs & Hcs & Hw & Hh & _ & Hlen & Hcap & _ & _ & Htags & _ & _
          & _ & Hpx).
    unfold ciff_encode.
    rewrite Hm, Hcap, Htags, Hpx, !list_byte_of_string_of_list_byte.
    assert (Hk : List.length pxb
                 = (3 * Z.to_nat (le_uint wb * le_uint hb))%nat).
    { pose proof (le_uint_nonneg wb). pose proof (le_uint_nonneg hb).
      rewrite Hw, Hh in Hid. nia. }
    rewrite (pixel_bytes_of pxb _ Hk).
    rewrite Hhs at 1. rewrite Hcs, Hw, Hh.
    rewrite <- L1 at 1. rewrite <- L2 at 1. rewrite <- L3 at 1.
    rewrite <- L4 at 1. rewrite !encode_le_le_uint.
    rewrite Hs. reflexivity. }
  split; [now apply Hback|].
  intros other Ho. rewrite <- (Hback other Ho). now apply Hback.
Qed.

Lemma X12_encode_after_decode_witness :
  decode sample_file = Normal sample_ciff
  /\ is_valid sample_ciff = true
  /\ ciff_encode sample_ciff = sample_file
  /\ (forall other, decode other = Normal sample_ciff -> other = sample_file).
Proof.
  split; [reflexivity|]. split; [reflexivity|].
  apply (X12_encode_after_decode sample_file sample_ciff); reflexivity.
Defined.

(** *** The caption loop on a well-formed caption *)

Lemma ascii_text_cons (a : ascii) (s : string) :
  ascii_text (String a s) ->
  is_ascii (byte_of_ascii a) = true /\ ascii_text s.
Proof.
  unfold ascii_text. cbn [list_byte_of_string list_ascii_of_string map forallb].
  intros H. now apply andb_true_iff in H.
Qed.

Lemma count_char_cons_zero (x a : ascii) (s : string) :
  count_char x (String a s) = 0%nat -> a <> x /\ count_char x s = 0%nat.
Proof.
  cbn [count_char]. destruct (Ascii.eqb_spec x a) as [->|Hne].
  - discriminate.
  - intros H. split; [congruence|exact H].
Qed.

Lemma caption_body_step (l : string * string) (b : byte)
    (file : list byte) (br : Z) (c : CIFF) :
  is_ascii b = true ->
  caption_body l (mkState (b :: file) br c)
  = (Normal ((fst l ++ snd l)%string, String (ascii_of_byte b) EmptyString),
     mkState file (br + 1) c).
Proof.
  intros Hb. unfold caption_body. mstep.
  cbn [firstn skipn List.length Nat.eqb negb decode_from]. rewrite Hb.
  reflexivity.
Qed.

Lemma caption_loop_run (s : string) :
  forall (acc : string) (a : ascii) (fuel : nat) (rest : list byte)
         (br : Z) (c : CIFF),
    a <> "010"%char -> is_ascii (byte_of_ascii a) = true ->
    ascii_text s -> count_char "010" s = 0%nat ->
    (String.length s + 1 < fuel)%nat ->
    while fuel caption_cond caption_body (acc, String a EmptyString)
          (mkState (list_byte_of_string s ++ x0a :: rest) br c)
    = (Normal ((acc ++ String a s)%string, LF),
       mkState rest (br + Z.of_nat (String.length s) + 1) c).
Proof.
  induction s as [|a' s IH]; intros acc a fuel rest br c Ha Hasc Hs Hnl Hfuel.
  - destruct fuel as [|[|fuel]]; try (cbn in Hfuel; lia).
    cbn [while]. unfold caption_cond at 1. cbn [snd].
    replace (String a "" =? LF)%string with false
      by (symmetry; apply String.eqb_neq; unfold LF; congruence).
    cbn [negb list_byte_of_string list_ascii_of_string map app].
    rewrite caption_body_step by reflexivity.
    cbn [fst snd]. unfold caption_cond. cbn [snd].
    change (String (ascii_of_byte x0a) "") with LF.
    rewrite String.eqb_refl. cbn [negb String.length].
    do 2 f_equal. lia.
  - destruct fuel as [|fuel]; [lia|].
    apply ascii_text_cons in Hs as [Ha' Hs].
    apply count_char_cons_zero in Hnl as [Hne Hnl].
    cbn [while]. unfold caption_cond at 1. cbn [snd].
    replace (String a "" =? LF)%string with false
      by (symmetry; apply String.eqb_neq; unfold LF; congruence).
    cbn [negb].
    change (list_byte_of_string (String a' s))
      with (byte_of_ascii a' :: list_byte_of_string s).
    cbn [app]. rewrite caption_body_step by assumption.
    cbn [fst snd]. rewrite ascii_of_byte_of_ascii.
    rewrite IH by (try assumption; cbn [String.length] in Hfuel; lia).
    rewrite append_assoc. cbn [append String.length].
    do 2 f_equal. lia.
Qed.

Lemma read_caption_run (s : string) (fuel : nat) (rest : list byte)
    (br : Z) (c : CIFF) :
  ascii_text s -> count_char "010" s = 0%nat ->
  (String.length s + 1 < fuel)%nat ->
  read_caption fuel (mkState (list_byte_of_string s ++ x0a :: rest) br c)
  = (Normal tt,
     mkState rest (br + Z.of_nat (String.length s) + 1) (with_caption s c)).
Proof.
  intros Hs Hnl Hfuel. unfold read_caption.
  destruct s as [|a s].
  - destruct fuel as [|fuel]; [lia|]. mstep.
    cbn [list_byte_of_string list_ascii_of_string map app firstn skipn
         List.length Nat.eqb negb decode_from].
    mstep. cbn [is_ascii]. cbn. do 2 f_equal. lia.
  - apply ascii_text_cons in Hs as [Ha Hs].
    apply count_char_cons_zero in Hnl as [Hne Hnl].
    change (list_byte_of_string (String a s))
      with (byte_of_ascii a :: list_byte_of_string s).
    mstep.
    cbn [app firstn skipn List.length Nat.eqb negb decode_from].
    rewrite Ha. mstep. rewrite ascii_of_byte_of_ascii.
    rewrite caption_loop_run
      by (try assumption; cbn [String.length] in Hfuel; lia).
    cbn [fst append String.length ciff_file bytes_read new_ciff].
    do 2 f_equal. lia.
Qed.

(** *** The tag loop on well-formed tags *)

Lemma tags_body_step (l : list string * string) (b : byte)
    (file : list byte) (br : Z) (c : CIFF) :
  is_ascii b = true -> b <> x0a ->
  ((br + 1 =? header_size c)
   && negb (String (ascii_of_byte b) EmptyString =? NUL)%string)%bool
  = false ->
  tags_body l (mkState (b :: file) br c)
  = (Normal
       (if (String (ascii_of_byte b) EmptyString =? NUL)%string
        then (fst l ++ [(snd l ++ String (ascii_of_byte b) EmptyString)%string],
              "")
        else (fst l, (snd l ++ String (ascii_of_byte b) EmptyString)%string)),
     mkState file (br + 1) c).
Proof.
  intros Hb Hnl Hcheck. unfold tags_body. mstep.
  cbn [firstn skipn List.length Nat.eqb negb decode_from]. rewrite Hb.
  mstep.
  replace (String (ascii_of_byte b) "" =? LF)%string with false
    by (symmetry; apply String.eqb_neq; now rewrite char_is_LF).
  mstep. rewrite Hcheck. reflexivity.
Qed.

Lemma last_char_cons (a : ascii) (s : string) :
  s <> "" -> last_char (String a s) = last_char s.
Proof. destruct s; [congruence|reflexivity]. Qed.

Lemma byte_of_ascii_not_LF (a : ascii) :
  a <> "010"%char -> byte_of_ascii a <> x0a.
Proof.
  intros Ha Hb. apply Ha. rewrite <- (ascii_of_byte_of_ascii a), Hb.
  reflexivity.
Qed.

Lemma tags_loop_run (u : string) :
  forall (done : list string) (acc : string) (fuel : nat)
         (rest : list byte) (br : Z) (c : CIFF),
    ascii_text u -> count_char "010" u = 0%nat ->
    (u = "" \/ last_char u = Some "000"%char) ->
    header_size c = br + Z.of_nat (String.length u) ->
    (String.length u < fuel)%nat ->
    while fuel tags_cond tags_body (done, acc)
          (mkState (list_byte_of_string u ++ rest) br c)
    = (Normal (scan_tags done acc u),
       mkState rest (br + Z.of_nat (String.length u)) c).
Proof.
  induction u as [|a u IH];
    intros done acc fuel rest br c Hasc Hnl Hlast Hhs Hfuel.
  - destruct fuel as [|fuel]; [lia|].
    cbn [while]. unfold tags_cond. cbn [bytes_read new_ciff String.length] in *.
    replace (br =? header_size c) with true
      by (symmetry; apply Z.eqb_eq; lia).
    cbn [negb scan_tags list_byte_of_string list_ascii_of_string map app].
    do 2 f_equal. lia.
  - destruct fuel as [|fuel]; [lia|].
    apply ascii_text_cons in Hasc as [Ha Hasc].
    apply count_char_cons_zero in Hnl as [Hne Hnl].
    cbn [String.length] in Hhs, Hfuel.
    cbn [while]. unfold tags_cond at 1. cbn [bytes_read new_ciff].
    replace (br =? header_size c) with false
      by (symmetry; apply Z.eqb_neq; lia).
    cbn [negb].
    change (list_byte_of_string (String a u))
      with (byte_of_ascii a :: list_byte_of_string u).
    cbn [app]. rewrite tags_body_step.
    + rewrite ascii_of_byte_of_ascii. cbn [fst snd scan_tags].
      assert (Hlast' : u = "" \/ last_char u = Some "000"%char).
      { destruct u as [|a' u']; [now left|right].
        destruct Hlast as [Hlast|Hlast]; [discriminate|].
        now rewrite last_char_cons in Hlast. }
      destruct (String a "" =? NUL)%string;
        rewrite IH by (try assumption; lia);
        cbn [String.length]; do 2 f_equal; lia.
    + assumption.
    + now apply byte_of_ascii_not_LF.
    + rewrite ascii_of_byte_of_ascii.
      destruct u as [|a' u'].
      * destruct Hlast as [Hlast|Hlast]; [discriminate|].
        cbn in Hlast. injection Hlast as ->.
        apply andb_false_r.
      * cbn [String.length] in Hhs.
        replace (br + 1 =? header_size c) with false
          by (symmetry; apply Z.eqb_neq; lia).
        reflexivity.
Qed.

(** What [scan_tags] makes of one well-formed tag, and of several. *)
Lemma last_char_counted (t : string) (a : ascii) :
  last_char t = Some a -> (1 <= count_char a t)%nat.
Proof.
  induction t as [|b t IH]; [discriminate|].
  destruct t as [|b' t'].
  - cbn. intros [= ->]. rewrite Ascii.eqb_refl. lia.
  - intros H. rewrite last_char_cons in H by discriminate.
    specialize (IH H). cbn [count_char] in *. lia.
Qed.

Lemma scan_tags_one (t : string) :
  forall (done : list string) (acc rest : string),
    tag_ok t ->
    scan_tags done acc (t ++ rest)
    = scan_tags (done ++ [(acc ++ t)%string]) "" rest.
Proof.
  induction t as [|a t IH]; intros done acc rest (Hne & Hcount & Hlast).
  - now contradiction Hne.
  - destruct t as [|a' t'].
    + cbn in Hlast. injection Hlast as ->. reflexivity.
    + rewrite last_char_cons in Hlast by discriminate.
      pose proof (last_char_counted _ _ Hlast) as Hone.
      assert (Ha : a <> "000"%char).
      { intros ->. cbn [count_char] in Hcount, Hone.
        rewrite Ascii.eqb_refl in Hcount. lia. }
      assert (Hcount' : count_char "000" (String a' t') = 1%nat).
      { cbn [count_char] in Hcount |- *.
        destruct (Ascii.eqb_spec "000" a) as [E|_]; [now contradiction Ha|].
        exact Hcount. }
      change ((String a (String a' t') ++ rest)%string)
        with (String a (String a' t' ++ rest)%string).
      cbn [scan_tags].
      replace (String a "" =? NUL)%string with false
        by (symmetry; apply String.eqb_neq; unfold NUL; congruence).
      rewrite IH by (split; [discriminate|split; assumption]).
      rewrite append_assoc. reflexivity.
Qed.

Lemma scan_tags_join (ts : list string) :
  forall done, Forall tag_ok ts ->
               scan_tags done "" (join ts) = (done ++ ts, "").
Proof.
  induction ts as [|t ts IH]; intros done Hok.
  - cbn. now rewrite app_nil_r.
  - inversion Hok as [|? ? Ht Hts]; subst.
    change (join (t :: ts)) with (t ++ join ts)%string.
    rewrite scan_tags_one by assumption. cbn [append].
    rewrite IH by assumption. now rewrite <- app_assoc.
Qed.

Lemma check_tags_run (ts : list string) (s : state) :
  Forall tag_ok ts -> for_each ts check_tag s = (Normal tt, s).
Proof.
  induction 1 as [|t ts (_ & _ & Hlast) _ IH]; [reflexivity|].
  cbn [for_each]. unfold bind at 1, check_tag at 1, index_last. rewrite Hlast.
  mstep. change (String "000" "") with NUL. rewrite String.eqb_refl.
  cbn [negb]. mstep. destruct s. exact IH.
Qed.

Lemma list_byte_of_string_app (a b : string) :
  list_byte_of_string (a ++ b)
  = list_byte_of_string a ++ list_byte_of_string b.
Proof.
  unfold list_byte_of_string.
  induction a as [|x a IH]; cbn; [reflexivity|now rewrite IH].
Qed.

Lemma length_append (a b : string) :
  String.length (a ++ b) = (String.length a + String.length b)%nat.
Proof. induction a as [|x a IH]; cbn; [reflexivity|now rewrite IH]. Qed.

Lemma length_list_byte_of_string (s : string) :
  List.length (list_byte_of_string s) = String.length s.
Proof.
  unfold list_byte_of_string.
  induction s as [|x s IH]; cbn; [reflexivity|now rewrite IH].
Qed.

Lemma last_char_append (a b : string) :
  b <> "" -> last_char (a ++ b) = last_char b.
Proof.
  intros Hb. induction a as [|x a IH]; [reflexivity|].
  cbn [append]. rewrite last_char_cons; [exact IH|].
  destruct a; [exact Hb|discriminate].
Qed.

Lemma ascii_text_join (ts : list string) :
  Forall ascii_text ts -> ascii_text (join ts).
Proof.
  induction 1 as [|t ts Ht _ IH]; [reflexivity|].
  unfold ascii_text in *. change (join (t :: ts)) with (t ++ join ts)%string.
  now rewrite list_byte_of_string_app, forallb_app, Ht, IH.
Qed.

Lemma count_char_join (a : ascii) (ts : list string) :
  Forall (fun t => count_char a t = 0%nat) ts ->
  count_char a (join ts) = 0%nat.
Proof.
  induction 1 as [|t ts Ht _ IH]; [reflexivity|].
  change (join (t :: ts)) with (t ++ join ts)%string.
  now rewrite count_char_app, Ht, IH.
Qed.

Lemma last_char_join (ts : list string) :
  Forall tag_ok ts -> join ts = "" \/ last_char (join ts) = Some "000"%char.
Proof.
  induction 1 as [|t ts (Hne & _ & Hlast) _ IH]; [now left|right].
  change (join (t :: ts)) with (t ++ join ts)%string.
  destruct IH as [->|IH].
  - now rewrite append_nil_r.
  - rewrite last_char_append; [exact IH|]. intros E. now rewrite E in IH.
Qed.

Lemma read_tags_run (ts : list string) (fuel : nat) (rest : list byte)
    (br : Z) (c : CIFF) :
  Forall (fun t => tag_ok t /\ ascii_text t /\ count_char "010" t = 0%nat)
         ts ->
  header_size c = br + Z.of_nat (String.length (join ts)) ->
  (String.length (join ts) < fuel)%nat ->
  read_tags fuel (mkState (list_byte_of_string (join ts) ++ rest) br c)
  = (Normal tt,
     mkState rest (br + Z.of_nat (String.length (join ts))) (with_tags ts c)).
Proof.
  intros Hts Hhs Hfuel.
  assert (Hok : Forall tag_ok ts)
    by (eapply Forall_impl; [|exact Hts]; cbn; tauto).
  assert (Hasc : Forall ascii_text ts)
    by (eapply Forall_impl; [|exact Hts]; cbn; tauto).
  assert (Hnl : Forall (fun t => count_char "010" t = 0%nat) ts)
    by (eapply Forall_impl; [|exact Hts]; cbn; tauto).
  unfold read_tags, bind.
  rewrite tags_loop_run; try assumption.
  - rewrite scan_tags_join by assumption. cbn [app fst].
    rewrite check_tags_run by assumption. reflexivity.
  - now apply ascii_text_join.
  - now apply count_char_join.
  - now apply last_char_join.
Qed.

(** *** The pixel loop on well-formed pixels *)

Lemma with_pixels_cons (c : CIFF) (p : pixel) (ps : list pixel) :
  with_pixels
    (pixels (with_pixels (pixels c ++ [p]) c) ++ ps)
    (with_pixels (pixels c ++ [p]) c)
  = with_pixels (pixels c ++ p :: ps) c.
Proof. unfold with_pixels. cbn. now rewrite <- app_assoc. Qed.

Lemma pixels_body_step (p : pixel) (file : list byte) (br : Z) (c : CIFF) :
  channel_ok p ->
  pixels_body tt (mkState (pixel_bytes p ++ file) br c)
  = (Normal tt, mkState file (br + 3) (with_pixels (pixels c ++ [p]) c)).
Proof.
  destruct p as [[r g] b]. intros (Hr & Hg & Hb).
  unfold pixels_body. mstep.
  cbn [pixel_bytes app firstn skipn List.length Nat.eqb negb]. mstep.
  cbn [unpack_BBB]. mstep.
  now rewrite !byte_val_of_channel by assumption.
Qed.

Lemma pixels_loop_run (ps : list pixel) :
  forall (fuel : nat) (rest : list byte) (br : Z) (c : CIFF),
    Forall channel_ok ps ->
    header_size c + content_size c = br + 3 * Z.of_nat (List.length ps) ->
    (List.length ps < fuel)%nat ->
    while fuel pixels_cond pixels_body tt
          (mkState (flat_map pixel_bytes ps ++ rest) br c)
    = (Normal tt,
       mkState rest (br + 3 * Z.of_nat (List.length ps))
               (with_pixels (pixels c ++ ps) c)).
Proof.
  induction ps as [|p ps IH]; intros fuel rest br c Hok Hsize Hfuel.
  - destruct fuel as [|fuel]; [cbn in Hfuel; lia|].
    cbn [while]. unfold pixels_cond. cbn [bytes_read new_ciff].
    cbn [List.length] in Hsize.
    replace (br <? header_size c + content_size c) with false
      by (symmetry; apply Z.ltb_ge; lia).
    cbn [flat_map app List.length]. rewrite with_pixels_same.
    do 2 f_equal. lia.
  - destruct fuel as [|fuel]; [lia|].
    inversion Hok as [|? ? Hp Hps]; subst.
    cbn [List.length] in Hsize, Hfuel.
    cbn [while]. unfold pixels_cond at 1. cbn [bytes_read new_ciff].
    replace (br <? header_size c + content_size c) with true
      by (symmetry; apply Z.ltb_lt; lia).
    cbn [flat_map]. rewrite <- app_assoc, pixels_body_step by assumption.
    rewrite IH; [| assumption | cbn [header_size content_size with_pixels]; lia
                 | lia].
    rewrite with_pixels_cons. cbn [List.length]. do 2 f_equal. lia.
Qed.

Lemma read_height_run (bs rest : list byte) (br : Z) (c : CIFF) :
  List.length bs = 8%nat ->
  content_size c = width c * le_uint bs * 3 ->
  read_height (mkState (bs ++ rest) br c)
  = (Normal tt, mkState rest (br + 8) (with_height (le_uint bs) c)).
Proof.
  intros Hlen Hid. unfold read_height. at_prefix.
  cbn [content_size width height with_height].
  apply Z.eqb_eq in Hid. now rewrite Hid.
Qed.

Lemma length_ciff_encode (c : CIFF) :
  magic c = "CIFF" ->
  List.length (ciff_encode c)
  = (37 + String.length (caption c) + String.length (join (tags c))
     + List.length (flat_map pixel_bytes (pixels c)))%nat.
Proof.
  intros Hm. unfold ciff_encode. rewrite Hm.
  rewrite !length_app, !length_encode_le, !length_list_byte_of_string.
  cbn [List.length String.length]. lia.
Qed.

Lemma length_pixel_bytes (ps : list pixel) :
  List.length (flat_map pixel_bytes ps) = (3 * List.length ps)%nat.
Proof.
  induction ps as [|[[r g] b] ps IH]; [reflexivity|].
  cbn [flat_map pixel_bytes app List.length]. rewrite IH. lia.
Qed.

(** On a well-formed object written in the CIFF layout and followed by
    [rest], everything up to the pixels is read as written; what is left
    is the end-of-file test on [rest]. *)
Lemma parse_body_encoded (c : CIFF) (rest : list byte) (fuel : nat) :
  well_formed c ->
  (List.length (ciff_encode c) < fuel)%nat ->
  parse_body fuel (initial (ciff_encode c ++ rest))
  = check_eof (mkState rest (header_size c + content_size c) c).
Proof.
  intros [Hm Hv He Hhs Hmin Hw Hh Hcs Hfits Hcount Hchan Hcap Hline Htags]
         Hfuel.
  assert (Hcs0 : 0 <= content_size c) by nia.
  rewrite (length_ciff_encode c Hm), length_pixel_bytes in Hfuel.
  unfold parse_body, bind, initial, ciff_encode.
  rewrite Hm. change (list_byte_of_string "CIFF") with [x43; x49; x46; x46].
  rewrite <- !app_assoc.
  rewrite read_magic_run.
  rewrite read_header_size_run
    by (rewrite ?length_encode_le, ?le_uint_encode_field; try reflexivity; lia).
  rewrite read_content_size_run by apply length_encode_le.
  rewrite read_width_run by apply length_encode_le.
  rewrite read_height_run;
    [|apply length_encode_le
     |cbn [content_size width with_width with_content_size];
      rewrite !le_uint_encode_field by lia; exact Hcs].
  rewrite !le_uint_encode_field by lia.
  change ([x0a] ++ list_byte_of_string (join (tags c))
          ++ flat_map pixel_bytes (pixels c) ++ rest)
    with (x0a :: list_byte_of_string (join (tags c))
          ++ flat_map pixel_bytes (pixels c) ++ rest).
  rewrite read_caption_run by (try assumption; lia).
  rewrite read_tags_run;
    [|assumption
     |cbn [header_size with_caption with_height with_width with_content_size
           with_header_size]; lia
     |lia].
  unfold read_pixels.
  rewrite pixels_loop_run;
    [|assumption
     |cbn [header_size content_size with_tags with_caption with_height
           with_width with_content_size with_header_size]; lia
     |lia].
  f_equal. f_equal; [lia|].
  destruct c. cbn in *. subst. reflexivity.
Qed.

(** X13. Every well-formed object, written in the CIFF layout, is read
    back unchanged: the file is accepted and the object returned is the
    one that was written. *)
Theorem X13_decode_after_encode (c : CIFF) :
  well_formed c -> decode (ciff_encode c) = Normal c.
Proof.
  intros Hwf. unfold decode, parse_ciff_file, try_except, bind.
  rewrite <- (app_nil_r (ciff_encode c)) at 2.
  rewrite parse_body_encoded by (assumption || (unfold fuel_for; lia)).
  reflexivity.
Qed.

Lemma sample_ciff_well_formed : well_formed sample_ciff.
Proof.
  constructor; try reflexivity; try (unfold max_uint64; cbn; lia).
  - repeat constructor; cbn; lia.
  - repeat constructor; discriminate.
Qed.

Lemma X13_decode_after_encode_witness :
  well_formed sample_ciff
  /\ decode (ciff_encode sample_ciff) = Normal sample_ciff.
Proof.
  split; [exact sample_ciff_well_formed|].
  exact (X13_decode_after_encode sample_ciff sample_ciff_well_formed).
Defined.

Lemma ascii_text_of_bytes (bs : list byte) :
  forallb is_ascii bs = true -> ascii_text (string_of_list_byte bs).
Proof.
  unfold ascii_text. now rewrite list_byte_of_string_of_list_byte.
Qed.

Lemma ascii_text_append (a b : string) :
  ascii_text (a ++ b) -> ascii_text a /\ ascii_text b.
Proof.
  unfold ascii_text. rewrite list_byte_of_string_app, forallb_app.
  apply andb_true_iff.
Qed.

Lemma ascii_text_parts (ts : list string) :
  ascii_text (join ts) -> Forall ascii_text ts.
Proof.
  induction ts as [|t ts IH]; intros H; [constructor|].
  change (join (t :: ts)) with (t ++ join ts)%string in H.
  apply ascii_text_append in H as [Ht Hts]. constructor; auto.
Qed.

Lemma count_char_parts (a : ascii) (ts : list string) :
  count_char a (join ts) = 0%nat ->
  Forall (fun t => count_char a t = 0%nat) ts.
Proof.
  induction ts as [|t ts IH]; intros H; [constructor|].
  change (join (t :: ts)) with (t ++ join ts)%string in H.
  rewrite count_char_app in H. constructor; [lia|apply IH; lia].
Qed.

Lemma count_char_of_bytes (b : byte) (bs : list byte) :
  ~ In b bs -> count_char (ascii_of_byte b) (string_of_list_byte bs) = 0%nat.
Proof.
  unfold string_of_list_byte.
  induction bs as [|x bs IH]; intros Hin; [reflexivity|].
  cbn [map string_of_list_ascii count_char].
  destruct (Ascii.eqb_spec (ascii_of_byte b) (ascii_of_byte x)) as [E|_].
  - apply ascii_of_byte_inj in E. subst x. contradiction Hin. now left.
  - rewrite IH; [reflexivity|]. intros H. apply Hin. now right.
Qed.

(** X14. The object of an accepted file is well formed: its header size
    counts the 36 bytes of fixed fields, the caption with its newline and
    the tags; caption and tags are ASCII text without newline; sizes fit
    64 bits; pixel channels are byte values.  With X13, the well-formed
    objects are exactly the ones [parse_ciff_file] hands back as valid. *)
Theorem X14_accepted_objects_are_well_formed (stream : list byte) (c : CIFF) :
  decode stream = Normal c -> is_valid c = true -> well_formed c.
Proof.
  intros Hd Hv.
  destruct (decode_valid _ _ Hd Hv) as (s' & Ha & Hc).
  destruct (decode_layout _ _ Hd Hv)
    as (hsb & csb & wb & hb & capb & tagb & pxb & Hs & L1 & L2 & L3 & L4
        & Hhs & Hcs & Hw & Hh & Hlen & Hpxlen & Hcap & Acap & Ncap & Htags
        & Atags & Ntags & _ & Hpx).
  pose proof (le_uint_fits _ L1). pose proof (le_uint_fits _ L2).
  pose proof (le_uint_fits _ L3). pose proof (le_uint_fits _ L4).
  pose proof (acc_min _ _ Ha) as Hmin.
  pose proof (acc_identity _ _ Ha) as Hid.
  pose proof (acc_pixels _ _ Ha) as Hcount.
  pose proof (acc_tags _ _ Ha) as Hok.
  pose proof (acc_magic _ _ Ha) as Hm.
  pose proof (acc_message _ _ Ha) as Hmsg.
  rewrite <- Hc in Hmin, Hid, Hcount, Hok, Hm, Hmsg.
  constructor; try assumption; try lia.
  - rewrite Hlen, Hcap, Htags, !length_string_of_list_byte. lia.
  - rewrite Hpx. apply pixels_of_channels.
  - rewrite Hcap. now apply ascii_text_of_bytes.
  - rewrite Hcap. now apply (count_char_of_bytes x0a).
  - assert (Hasc : Forall ascii_text (tags c)).
    { apply ascii_text_parts. rewrite Htags. now apply ascii_text_of_bytes. }
    assert (Hnl : Forall (fun t => count_char "010" t = 0%nat) (tags c)).
    { apply count_char_parts. rewrite Htags.
      now apply (count_char_of_bytes x0a). }
    clear - Hok Hasc Hnl.
    induction Hok as [|t ts Ht _ IH]; [constructor|].
    inversion Hasc; inversion Hnl; subst. constructor; auto.
Qed.

Lemma X14_accepted_objects_are_well_formed_witness :
  decode null_caption_file = Normal null_caption_ciff
  /\ is_valid null_caption_ciff = true
  /\ well_formed null_caption_ciff.
Proof.
  split; [reflexivity|]. split; [reflexivity|].
  apply (X14_accepted_objects_are_well_formed null_caption_file);
    reflexivity.
Defined.

(** ** Which exceptions can be raised *)

Lemma decode_from_error_known pos bs e s :
  decode_from pos bs = inr e -> known_message e s.
Proof.
  revert pos. induction bs as [|b bs IH]; intros pos H; cbn in H;
    [discriminate|].
  destruct (is_ascii b) eqn:Hb.
  - destruct (decode_from (S pos) bs) eqn:E; [discriminate|].
    injection H as <-. eapply IH. eassumption.
  - injection H as <-. right. exists b, pos. split; [assumption|reflexivity].
Qed.

Ltac own_message :=
  first [ exact I
        | left; cbn; tauto
        | eapply decode_from_error_known; eassumption ].

Ltac split_msg c := destruct c eqn:?; mstep; try own_message.

Lemma read_magic_raises s :
  outcome (read_magic s) (fun _ _ => True) known_message True.
Proof.
  unfold read_magic. mstep.
  split_msg (List.length (firstn 4 (ciff_file s)) =? 4)%nat.
  split_msg (decode_from 0 (firstn 4 (ciff_file s))).
  cbn [magic with_magic]. split_msg (s0 =? "CIFF")%string.
Qed.

Lemma read_header_size_raises s :
  outcome (read_header_size s) (fun _ _ => True) known_message True.
Proof.
  unfold read_header_size. mstep.
  split_msg (List.length (firstn 8 (ciff_file s)) =? 8)%nat.
  cbn [header_size with_header_size].
  split_msg (le_uint (firstn 8 (ciff_file s)) <? 38).
Qed.

Lemma read_content_size_raises s :
  outcome (read_content_size s) (fun _ _ => True) known_message True.
Proof.
  unfold read_content_size. mstep.
  split_msg (List.length (firstn 8 (ciff_file s)) =? 8)%nat.
Qed.

Lemma read_width_raises s :
  outcome (read_width s) (fun _ _ => True) known_message True.
Proof.
  unfold read_width. mstep.
  split_msg (List.length (firstn 8 (ciff_file s)) =? 8)%nat.
Qed.

Lemma read_height_raises s :
  outcome (read_height s) (fun _ _ => True) known_message True.
Proof.
  unfold read_height. mstep.
  split_msg (List.length (firstn 8 (ciff_file s)) =? 8)%nat.
  cbn [content_size width height with_height].
  split_msg (content_size (new_ciff s)
             =? width (new_ciff s) * le_uint (firstn 8 (ciff_file s)) * 3).
Qed.

Lemma check_eof_raises s :
  outcome (check_eof s) (fun _ _ => True) known_message True.
Proof.
  unfold check_eof. mstep.
  destruct (ciff_file s) as [|b l]; cbn; own_message.
Qed.

(** Keep the normal part of one description of a run and the exceptions
    of another. *)
Lemma outcome_exc {A} (r : res A * state) (QN QN' : A -> state -> Prop)
    (QR QR' : string -> state -> Prop) (QF QF' : Prop) :
  outcome r QN QR QF -> outcome r QN' QR' QF' -> outcome r QN QR' QF.
Proof. destruct r as [[a| e |] s]; cbn; auto. Qed.

Lemma caption_body_raises l s :
  outcome (caption_body l s) (fun _ _ => True) known_message True.
Proof.
  unfold caption_body. mstep.
  split_msg (List.length (firstn 1 (ciff_file s)) =? 1)%nat.
  split_msg (decode_from 0 (firstn 1 (ciff_file s))).
Qed.

Lemma tags_body_raises l s :
  outcome (tags_body l s) (fun _ _ => True) known_message True.
Proof.
  unfold tags_body. mstep.
  split_msg (List.length (firstn 1 (ciff_file s)) =? 1)%nat.
  split_msg (decode_from 0 (firstn 1 (ciff_file s))).
  split_msg (s0 =? LF)%string.
  split_msg ((bytes_read s + 1 =? header_size (new_ciff s))
             && negb (s0 =? NUL)%string)%bool.
Qed.

Lemma pixels_body_raises l s :
  outcome (pixels_body l s) (fun _ _ => True) known_message True.
Proof.
  unfold pixels_body. mstep.
  split_msg (List.length (firstn 3 (ciff_file s)) =? 3)%nat.
  match goal with H : (_ =? 3)%nat = true |- _ => apply Nat.eqb_eq in H;
    destruct (three_bytes _ H) as (r & g & b & ->) end.
  unfold unpack_BBB. mstep. exact I.
Qed.

Lemma read_caption_raises fuel s :
  outcome (read_caption fuel s) (fun _ _ => True) known_message True.
Proof.
  unfold read_caption. mstep.
  split_msg (List.length (firstn 1 (ciff_file s)) =? 1)%nat.
  split_msg (decode_from 0 (firstn 1 (ciff_file s))).
  match goal with
  | |- context [while fuel caption_cond caption_body ?l0 ?st] =>
      pose proof (while_rule caption_cond caption_body (fun _ _ => True)
                    known_message
                    (fun l1 s1 _ _ =>
                       outcome_exc _ _ _ _ _ _ _
                         (caption_body_reads l1 s1)
                         (caption_body_raises l1 s1))
                    fuel l0 st I) as Hw;
      destruct (while fuel caption_cond caption_body l0 st)
        as [[l'| e |] s2]; cbn [outcome] in Hw |- *
  end; own_message || exact Hw.
Qed.

Lemma read_tags_raises fuel s :
  outcome (read_tags fuel s) (fun _ _ => True) known_message True.
Proof.
  unfold read_tags, bind.
  assert (H0 : tags_inv s ([], "") s).
  { exists []. split; [apply reads_nil|]. split; [reflexivity|].
    split; [constructor|reflexivity]. }
  pose proof (while_rule tags_cond tags_body (tags_inv s) known_message
                (fun l1 s1 H1 Hc =>
                   outcome_exc _ _ _ _ _ _ _
                     (tags_body_ok s l1 s1 H1 Hc)
                     (tags_body_raises l1 s1))
                fuel _ _ H0) as Hw.
  destruct (while fuel tags_cond tags_body ([], "") s)
    as [[[tgs tag]| e |] s1]; cbn [outcome] in Hw |- *;
    [|exact Hw|exact I].
  destruct Hw as [(_ & _ & _ & Hts & _) _]. cbn [fst] in *.
  rewrite check_tags_run by assumption. exact I.
Qed.

Lemma read_pixels_raises fuel s :
  outcome (read_pixels fuel s) (fun _ _ => True) known_message True.
Proof.
  unfold read_pixels.
  assert (Hbody : forall l1 s1, True -> pixels_cond l1 s1 = true ->
            outcome (pixels_body l1 s1)
              (fun _ s2 =>
                 True /\ (List.length (ciff_file s2)
                          < List.length (ciff_file s1))%nat)
              known_message False).
  { intros l1 s1 _ _. pose proof (pixels_body_raises l1 s1) as Hr.
    unfold pixels_body in *. revert Hr. mstep.
    destruct (List.length (firstn 3 (ciff_file s1)) =? 3)%nat eqn:E; mstep;
      [|auto].
    apply Nat.eqb_eq in E. destruct (three_bytes _ E) as (r & g & b & Hrgb).
    rewrite Hrgb. unfold unpack_BBB. mstep. intros _.
    split; [exact I|now apply shorter_after_read]. }
  pose proof (while_rule pixels_cond pixels_body (fun _ _ => True)
                known_message Hbody fuel tt s I) as Hw.
  destruct (while fuel pixels_cond pixels_body tt s) as [[[]| e |] s1];
    cbn [outcome] in Hw |- *; own_message || exact Hw.
Qed.

Lemma parse_body_raises fuel s :
  outcome (parse_body fuel s) (fun _ _ => True) known_message True.
Proof.
  unfold parse_body.
  repeat (eapply outcome_bind;
          [first [ apply read_magic_raises | apply read_header_size_raises
                 | apply read_content_size_raises | apply read_width_raises
                 | apply read_height_raises | apply read_caption_raises
                 | apply read_tags_raises | apply read_pixels_raises ]
          | exact (fun H => H) | intros _ ? _ ]).
  apply check_eof_raises.
Qed.

(** X15. The message of a rejected file is one of the eleven messages of
    the parser's own [raise] statements, or the decoder's message for a
    byte of 0x80 or more; in particular [struct.unpack] and the indexing
    [tag[-1]] never fail. *)
Theorem X15_messages_of_rejected_files (stream : list byte) (c : CIFF) :
  decode stream = Normal c -> is_valid c = false ->
  In (error_message c) parse_messages
  \/ exists b pos,
       is_ascii b = false /\ error_message c = unicode_decode_error b pos.
Proof.
  intros Hd Hv.
  destruct (decode_outcome stream) as [(s' & Ha & Hs)|(e & s' & Hb & _ & Hs)];
    rewrite Hs in Hd; injection Hd as <-.
  - rewrite (acc_valid _ _ Ha) in Hv. discriminate.
  - pose proof (parse_body_raises (fuel_for stream) (initial stream)) as Hr.
    rewrite Hb in Hr. exact Hr.
Qed.

Lemma X15_messages_of_rejected_files_witness :
  decode long_caption_file
  = Normal (mkCIFF "CIFF" 38 0 0 0 "abc" [] [] false "Invalid image: tags")
  /\ (In "Invalid image: tags" parse_messages
      \/ exists b pos,
           is_ascii b = false
           /\ "Invalid image: tags" = unicode_decode_error b pos).
Proof.
  split; [reflexivity|].
  exact (X15_messages_of_rejected_files long_caption_file
           (mkCIFF "CIFF" 38 0 0 0 "abc" [] [] false "Invalid image: tags")
           eq_refl eq_refl).
Defined.

(** X16. A well-formed file followed by further bytes is read in full
    as written, and only then rejected: the object carries every field
    of the file, with [is_valid = false] and the message of the
    end-of-file test; one byte past the pixels has been read. *)
Theorem X16_trailing_bytes (c : CIFF) (b : byte) (extra : list byte) :
  well_formed c ->
  let stream := ciff_encode c ++ b :: extra in
  parse_ciff_file (fuel_for stream) (initial stream)
  = (Normal (rejected "Invalid image: content"
                      (mkState extra (header_size c + content_size c) c)),
     mkState extra (header_size c + content_size c)
             (rejected "Invalid image: content"
                       (mkState extra (header_size c + content_size c) c))).
Proof.
  intros Hwf stream. unfold parse_ciff_file, try_except, bind.
  unfold stream at 2.
  rewrite parse_body_encoded;
    [|assumption|unfold fuel_for, stream; rewrite length_app; lia].
  reflexivity.
Qed.

Lemma X16_trailing_bytes_witness :
  well_formed sample_ciff
  /\ decode (ciff_encode sample_ciff ++ [x00])
     = Normal (mkCIFF "CIFF" 39 3 1 1 "" [String "x" (String "000" "")]
                      [(10, 20, 30)] false "Invalid image: content").
Proof.
  split; [exact sample_ciff_well_formed|].
  exact (f_equal fst
           (X16_trailing_bytes sample_ciff x00 [] sample_ciff_well_formed)).
Defined.
